(** * scraper.py: supplier discovery and page scraping

    A shallow embedding of [src/scraper.py] and the properties of its
    text extractors, its search-result link extraction, its page
    interpretation and its batch loop.

    Conventions of the embedding.
    - A Python [str] is a [string]: a sequence of code points, here the
      code points 0..255 ([ascii] read as Latin-1).
    - A Python [int] is a [Z]; [None] is the [None] of [option].
    - [re], [urllib.parse], [bs4] and [requests] are libraries the script
      imports.  The two compiled patterns are interpreted by a backtracking
      matcher with the priority order of [re]; [quote_plus] and
      [urlparse(...).netloc] follow CPython, the [ValueError] of
      [urlparse] included; the HTML parser, the network and the check
      that recent versions of CPython apply to a bracketed host are
      parameters of the development. *)

From Stdlib Require Import String Ascii List ZArith NArith Lia Bool.
From Stdlib Require Import Sorted Permutation DecimalString.
Import ListNotations.

Local Open Scope string_scope.
Local Open Scope list_scope.

(* ------------------------------------------------------------------ *)
(** * Python strings *)

Module Py.

(** Code point of a character. *)
Definition ord (c : ascii) : N := N_of_ascii c.

Definition in_range (lo hi : N) (c : ascii) : bool :=
  ((lo <=? ord c) && (ord c <=? hi))%N.

(** [str.isspace] on one character: the code points below 256 that
    CPython classifies as whitespace. *)
Definition isspace (c : ascii) : bool :=
  in_range 9 13 c || in_range 28 32 c || (ord c =? 133)%N || (ord c =? 160)%N.

(** A decimal digit; below 256 only ["0"].. ["9"] are decimal digits. *)
Definition isdecimal (c : ascii) : bool := in_range 48 57 c.

Definition isupper_ascii (c : ascii) : bool := in_range 65 90 c.
Definition islower_ascii (c : ascii) : bool := in_range 97 122 c.
Definition isalpha_ascii (c : ascii) : bool := isupper_ascii c || islower_ascii c.

(** Truth value of a string: the empty string is false. *)
Definition truthy (s : string) : bool :=
  match s with EmptyString => false | String _ _ => true end.

(** Truth value of an [Optional[str]]: [None] and [""] are false. *)
Definition truthy_opt (o : option string) : bool :=
  match o with None => false | Some s => truthy s end.

(** [a or b] on strings. *)
Definition or_else (a b : string) : string := if truthy a then a else b.

(** [s or None]. *)
Definition or_None (s : string) : option string :=
  if truthy s then Some s else None.

(** [s.lstrip()], [s.rstrip()] and [s.strip()] with no argument. *)
Fixpoint lstrip (s : string) : string :=
  match s with
  | EmptyString => EmptyString
  | String c s' => if isspace c then lstrip s' else s
  end.

Fixpoint rstrip (s : string) : string :=
  match s with
  | EmptyString => EmptyString
  | String c s' =>
      match rstrip s' with
      | EmptyString => if isspace c then EmptyString else String c EmptyString
      | r => String c r
      end
  end.

Definition strip (s : string) : string := rstrip (lstrip s).

(** [s.startswith(p)]. *)
Definition startswith (s p : string) : bool := String.prefix p s.

(** [sub in s]. *)
Fixpoint contains (sub s : string) : bool :=
  String.prefix sub s ||
  match s with
  | EmptyString => false
  | String _ s' => contains sub s'
  end.

(** [s.split(sep)] for a non-empty separator: the text is cut at the
    occurrences of [sep] found from left to right, an occurrence starting
    only after the end of the previous one.  [skip] counts the characters
    of a separator still to pass over and [cur] is the piece being read. *)
Fixpoint split_from (sep s : string) (skip : nat) (cur : string) : list string :=
  match s with
  | EmptyString => [cur]
  | String c s' =>
      match skip with
      | S k => split_from sep s' k cur
      | O =>
          if String.prefix sep s
          then cur :: split_from sep s' (String.length sep - 1) EmptyString
          else split_from sep s' 0 (cur ++ String c EmptyString)%string
      end
  end.

Definition split (s sep : string) : list string := split_from sep s 0 EmptyString.

(** [l[-1]] and [l[0]] on the result of a split, which is never empty. *)
Definition last_item (l : list string) : string := List.last l EmptyString.
Definition first_item (l : list string) : string := List.hd EmptyString l.

(** [sep.join(l)]. *)
Definition join (sep : string) (l : list string) : string := String.concat sep l.

(** [str(n)] for an integer. *)
Definition str_of_int (n : Z) : string := NilZero.string_of_int (Z.to_int n).

(** [len(s)] on a list, as a Python integer. *)
Definition len {A} (l : list A) : Z := Z.of_nat (List.length l).

(** Truth value of a list: the empty list is false. *)
Definition nonempty {A} (l : list A) : bool :=
  match l with [] => false | _ :: _ => true end.

(** [l[:n]]. *)
Definition slice_to {A} (n : nat) (l : list A) : list A := firstn n l.

(** [list(dict.fromkeys(l))]: the keys of a dictionary filled from [l]
    in order.  Inserting a key that is already present leaves the key at
    its first position. *)
Definition dict_insert_key (d : list string) (k : string) : list string :=
  if existsb (String.eqb k) d then d else d ++ [k].

Definition dict_fromkeys (l : list string) : list string :=
  fold_left dict_insert_key l [].

(** [sorted(l)] on strings: ascending in the code-point order of [str]. *)
Fixpoint insert_sorted (x : string) (l : list string) : list string :=
  match l with
  | [] => [x]
  | y :: l' => if String.leb x y then x :: l else y :: insert_sorted x l'
  end.

Fixpoint sorted (l : list string) : list string :=
  match l with
  | [] => []
  | x :: l' => insert_sorted x (sorted l')
  end.

(** [set(l)], listed in some order; [sorted] makes the order irrelevant
    (lemma [sorted_set_order] below). *)
Definition set_of (l : list string) : list string := nodup string_dec l.

End Py.

(* ------------------------------------------------------------------ *)
(** * urllib.parse *)

Module Urllib.

Import Py.

Definition hex_digit (n : N) : ascii :=
  if (n <? 10)%N then ascii_of_N (48 + n) else ascii_of_N (55 + n).

(** ["%XX"] for one byte, upper-case hexadecimal. *)
Definition percent (b : N) : string :=
  String "%" (String (hex_digit (b / 16)) (String (hex_digit (b mod 16)) EmptyString)).

(** The bytes that [quote] never escapes: letters, digits and ["_.-~"]. *)
Definition always_safe (c : ascii) : bool :=
  isalpha_ascii c || isdecimal c ||
  (ord c =? 95)%N || (ord c =? 46)%N || (ord c =? 45)%N || (ord c =? 126)%N.

(** The UTF-8 encoding of a code point below 256. *)
Definition utf8 (c : ascii) : list N :=
  if (ord c <? 128)%N then [ord c]
  else [(192 + ord c / 64)%N; (128 + ord c mod 64)%N].

(** [quote_plus(s)]: a space becomes ["+"], a safe character stays, any
    other character becomes the escapes of its UTF-8 bytes. *)
Fixpoint quote_plus (s : string) : string :=
  match s with
  | EmptyString => EmptyString
  | String c s' =>
      ((if (ord c =? 32)%N then "+"
        else if always_safe c then String c EmptyString
        else String.concat "" (map percent (utf8 c)))
       ++ quote_plus s')%string
  end.

(** Characters allowed in a scheme: letters, digits and ["+-."]. *)
Definition scheme_char (c : ascii) : bool :=
  isalpha_ascii c || isdecimal c ||
  (ord c =? 43)%N || (ord c =? 45)%N || (ord c =? 46)%N.

(** [urlsplit] first drops leading C0 controls and spaces, and every tab,
    carriage return and line feed. *)
Fixpoint lstrip_c0 (s : string) : string :=
  match s with
  | EmptyString => EmptyString
  | String c s' => if (ord c <=? 32)%N then lstrip_c0 s' else s
  end.

Fixpoint remove_unsafe (s : string) : string :=
  match s with
  | EmptyString => EmptyString
  | String c s' =>
      if (ord c =? 9)%N || (ord c =? 10)%N || (ord c =? 13)%N
      then remove_unsafe s' else String c (remove_unsafe s')
  end.

(** The text after ["scheme:"] when the URL starts with a scheme, the
    whole text otherwise.  [seen] tells whether a first character, a
    letter, has been read. *)
Fixpoint after_scheme (whole s : string) (seen : bool) : string :=
  match s with
  | EmptyString => whole
  | String c s' =>
      if (ord c =? 58)%N then (if seen then s' else whole)
      else if (if seen then scheme_char c else isalpha_ascii c)
           then after_scheme whole s' true
           else (* a character outside the scheme alphabet: no scheme,
                   unless no colon follows at all, which gives the same *)
             whole
  end.

(** The characters up to the first of ["/"], ["?"] and ["#"]. *)
Fixpoint until_delim (s : string) : string :=
  match s with
  | EmptyString => EmptyString
  | String c s' =>
      if (ord c =? 47)%N || (ord c =? 63)%N || (ord c =? 35)%N
      then EmptyString else String c (until_delim s')
  end.

(** The network location [urlsplit] cuts out of a URL: after the
    optional scheme, the text between a leading ["//"] and the next
    delimiter; empty when there is no ["//"].  It is the whole authority,
    with the user information and the port when the URL has them. *)
Definition netloc_text (url : string) : string :=
  let u := remove_unsafe (lstrip_c0 url) in
  match after_scheme u u false with
  | String "/" (String "/" rest) => until_delim rest
  | _ => EmptyString
  end.

(** [urlparse(url).netloc], or the message of the [ValueError] that
    [urlparse] raises.  It raises when the network location holds one of
    the two square brackets without the other.  When it holds both,
    CPython from 3.11.4 on checks the bracketed host and may raise;
    [check_bracketed] is that check, giving the message of the error if
    any (earlier versions have no such check: the constant [None]). *)
Definition netloc (check_bracketed : string -> option string) (url : string)
  : string + string :=
  let n := netloc_text url in
  let opening := contains "[" n in
  let closing := contains "]" n in
  if xorb opening closing then inr "Invalid IPv6 URL"
  else if opening && closing then
    match check_bracketed n with
    | Some msg => inr msg
    | None => inl n
    end
  else inl n.

End Urllib.

(* ------------------------------------------------------------------ *)
(** * The [re] patterns of the script *)

Module Re.

Import Py.

(** The pattern constructs the two patterns use.  A class, a literal and
    an escape such as [\d] are all sets of characters.  Repetitions are
    greedy, as every repetition of the script is. *)
Inductive regex : Type :=
| Set_ (p : ascii -> bool)            (* [...], a literal, \d *)
| Seq (r1 r2 : regex)                 (* r1 r2 *)
| Repeat (lo hi : nat) (r : regex)    (* r{lo,hi}; r? is r{0,1} *)
| AtLeast (lo : nat) (p : ascii -> bool). (* [...]{lo,}; + is {1,} *)

(** The strings a pattern matches in full. *)
Fixpoint string_forall (p : ascii -> bool) (s : string) : bool :=
  match s with
  | EmptyString => true
  | String c s' => p c && string_forall p s'
  end.

Fixpoint lang (r : regex) (w : string) : Prop :=
  match r with
  | Set_ p => exists c, w = String c EmptyString /\ p c = true
  | Seq a b => exists w1 w2, w = (w1 ++ w2)%string /\ lang a w1 /\ lang b w2
  | Repeat lo hi a =>
      exists ws, lo <= List.length ws <= hi /\ Forall (lang a) ws /\
                 w = String.concat "" ws
  | AtLeast lo p => lo <= String.length w /\ string_forall p w = true
  end.

(** The matcher: [rmatch r s k] matches [r] at the start of [s] and hands
    the rest of the text to [k]; when [k] fails the matcher backtracks
    into [r], a repetition giving up its last iteration first. *)
Fixpoint at_least (p : ascii -> bool) (lo : nat) (s : string)
         (k : string -> option string) : option string :=
  let stop := match lo with O => k s | S _ => None end in
  match s with
  | EmptyString => stop
  | String c s' =>
      if p c then
        match at_least p (pred lo) s' k with
        | Some x => Some x
        | None => stop
        end
      else stop
  end.

Fixpoint rmatch (r : regex) (s : string) (k : string -> option string)
         {struct r} : option string :=
  match r with
  | Set_ p =>
      match s with
      | EmptyString => None
      | String c s' => if p c then k s' else None
      end
  | Seq a b => rmatch a s (fun s1 => rmatch b s1 k)
  | Repeat lo hi a =>
      (fix rep (lo n : nat) (s : string) (k : string -> option string)
           {struct n} : option string :=
         let stop := match lo with O => k s | S _ => None end in
         match n with
         | O => stop
         | S n' =>
             match rmatch a s (fun s1 => rep (pred lo) n' s1 k) with
             | Some x => Some x
             | None => stop
             end
         end) lo hi s k
  | AtLeast lo p => at_least p lo s k
  end.

(** [pattern.match(s)]: the text matched at the start of [s], if any. *)
Definition match_at (r : regex) (s : string) : option string :=
  match rmatch r s Some with
  | Some rest => Some (String.substring 0 (String.length s - String.length rest) s)
  | None => None
  end.

(** [m.group(0) for m in pattern.finditer(s)]: the matches found from
    left to right, each search starting where the previous match ended.
    [skip] counts the characters of the last match still to pass over.
    Both patterns of the script match six characters or more, so the
    special treatment of empty matches never applies. *)
Fixpoint finditer_from (r : regex) (s : string) (skip : nat) : list string :=
  match s with
  | EmptyString => []
  | String _ s' =>
      match skip with
      | S n => finditer_from r s' n
      | O =>
          match match_at r s with
          | Some m => m :: finditer_from r s' (String.length m - 1)
          | None => finditer_from r s' 0
          end
      end
  end.

Definition finditer (r : regex) (s : string) : list string := finditer_from r s 0.

(** [re.sub(p, repl, s)] for a pattern [p] that is one character set. *)
Fixpoint sub_set (p : ascii -> bool) (repl s : string) : string :=
  match s with
  | EmptyString => EmptyString
  | String c s' =>
      if p c then (repl ++ sub_set p repl s')%string
      else String c (sub_set p repl s')
  end.

(** [re.sub(p+, repl, s)]: every maximal run of characters of the set is
    replaced by [repl]; [in_run] tells whether the previous character
    belonged to the run being replaced. *)
Fixpoint sub_runs (p : ascii -> bool) (repl s : string) (in_run : bool) : string :=
  match s with
  | EmptyString => EmptyString
  | String c s' =>
      if p c then
        (if in_run then sub_runs p repl s' true
         else (repl ++ sub_runs p repl s' true)%string)
      else String c (sub_runs p repl s' false)
  end.

(** Character sets. *)
Definition lit (a : ascii) : ascii -> bool := fun c => Ascii.eqb c a.

Fixpoint one_of (set : string) (c : ascii) : bool :=
  match set with
  | EmptyString => false
  | String a set' => Ascii.eqb c a || one_of set' c
  end.

Definition digit : ascii -> bool := isdecimal.            (* \d *)
Definition nondigit (c : ascii) : bool := negb (isdecimal c). (* \D *)
Definition space : ascii -> bool := isspace.              (* \s *)

(** [[A-Z]] under [re.IGNORECASE]: below 256 the letters of either case. *)
Definition letter : ascii -> bool := isalpha_ascii.

Definition opt (r : regex) : regex := Repeat 0 1 r.       (* r? *)
Definition plus (p : ascii -> bool) : regex := AtLeast 1 p. (* [...]+ *)

End Re.

(* ------------------------------------------------------------------ *)
(** * The text extractors *)

Import Py Re.

(** [[A-Z0-9._%+-]], [[A-Z0-9.-]] and [[\s-]]. *)
Definition local_char (c : ascii) : bool := letter c || digit c || one_of "._%+-" c.
Definition domain_char (c : ascii) : bool := letter c || digit c || one_of ".-" c.
Definition sep_char (c : ascii) : bool := space c || lit "-" c.

(** [[A-Z0-9._%+-]+@[A-Z0-9.-]+\.[A-Z]{2,}], case-insensitive. *)
Definition EMAIL_RE : regex :=
  Seq (plus local_char)
 (Seq (Set_ (lit "@"))
 (Seq (plus domain_char)
 (Seq (Set_ (lit "."))
      (AtLeast 2 letter)))).

(** [(?:\+?\d{1,3}[\s-]?)?(?:\(?\d{2,4}\)?[\s-]?)?\d{3,4}[\s-]?\d{3,4}]. *)
Definition PHONE_RE : regex :=
  Seq (opt (Seq (opt (Set_ (lit "+")))
           (Seq (Repeat 1 3 (Set_ digit))
                (opt (Set_ sep_char)))))
 (Seq (opt (Seq (opt (Set_ (lit "(")))
           (Seq (Repeat 2 4 (Set_ digit))
           (Seq (opt (Set_ (lit ")")))
                (opt (Set_ sep_char))))))
 (Seq (Repeat 3 4 (Set_ digit))
 (Seq (opt (Set_ sep_char))
      (Repeat 3 4 (Set_ digit))))).

Definition _extract_emails (text : string) : list string :=
  sorted (set_of (finditer EMAIL_RE text)).

(** The loop of [_extract_phones] over the matches, [phones] being the
    list built so far. *)
Fixpoint _extract_phones_loop (found : list string) (phones : list string)
  : list string :=
  match found with
  | [] => phones
  | value :: rest =>
      let digits := sub_set nondigit "" value in
      if (7 <=? String.length digits)%nat
      then _extract_phones_loop rest (phones ++ [strip value])
      else _extract_phones_loop rest phones
  end.

Definition _extract_phones (text : string) : list string :=
  sorted (set_of (_extract_phones_loop (finditer PHONE_RE text) [])).

Definition _cleanup_text (text : string) : string :=
  strip (sub_runs space " " text false).

(* ------------------------------------------------------------------ *)
(** * The record *)

(** The dataclass [SupplierRecord], field for field. *)
Record SupplierRecord : Type := {
  serial_number : Z;
  name : string;
  company_details : option string;
  export_capabilities : option string;
  operational_experience_years : option string;
  product_service_capability : option string;
  annual_capacity_mt : option string;
  process_capabilities : option string;
  supply_chain_solutions_available : option string;
  quality_certifications : option string;
  business_metrics : option string;
  commercial_capabilities : option string;
  website : option string;
  country : option string;
  region : option string;
  year_of_establishment : option string;
  company_ownership : option string;
  management_structure : option string;
  factory_locations : option string;
  key_clients : option string;
  contact_person : option string;
  contact_number : option string;
  email : option string;
  capability_to_export : option string;
  global_presence : option string;
  products_services_offered : option string;
  end_use_applications : option string;
  key_usps : option string;
  total_capacity_units_per_annum : option string;
  open_capacity_percent : option string;
  process_1 : option string;
  process_2 : option string;
  process_3 : option string;
  other_certifications : option string;
  annual_revenues_usd_mn : option string;
  number_of_employees : option string;
  pricing_capabilities : option string;
  lead_time : option string;
  payment_terms : option string;
  sources : list string;
  notes : option string
}.

(** [SupplierRecord(...)] with the keyword arguments the script passes at
    its two construction sites; every other field takes its default
    [None].  ([products_services_offered] and [export_capabilities],
    passed as [None] by [scrape_supplier_page], are among them.) *)
Definition new_record (serial : Z) (nm : string)
           (details site ctry reg phone mail : option string)
           (srcs : list string) (note : option string) : SupplierRecord :=
  {| serial_number := serial;
     name := nm;
     company_details := details;
     export_capabilities := None;
     operational_experience_years := None;
     product_service_capability := None;
     annual_capacity_mt := None;
     process_capabilities := None;
     supply_chain_solutions_available := None;
     quality_certifications := None;
     business_metrics := None;
     commercial_capabilities := None;
     website := site;
     country := ctry;
     region := reg;
     year_of_establishment := None;
     company_ownership := None;
     management_structure := None;
     factory_locations := None;
     key_clients := None;
     contact_person := None;
     contact_number := phone;
     email := mail;
     capability_to_export := None;
     global_presence := None;
     products_services_offered := None;
     end_use_applications := None;
     key_usps := None;
     total_capacity_units_per_annum := None;
     open_capacity_percent := None;
     process_1 := None;
     process_2 := None;
     process_3 := None;
     other_certifications := None;
     annual_revenues_usd_mn := None;
     number_of_employees := None;
     pricing_capabilities := None;
     lead_time := None;
     payment_terms := None;
     sources := srcs;
     notes := note |}.

(** The three attribute assignments of the script. *)
Definition set_serial_number (r : SupplierRecord) (v : Z) : SupplierRecord :=
  {| serial_number := v;
     name := name r;
     company_details := company_details r;
     export_capabilities := export_capabilities r;
     operational_experience_years := operational_experience_years r;
     product_service_capability := product_service_capability r;
     annual_capacity_mt := annual_capacity_mt r;
     process_capabilities := process_capabilities r;
     supply_chain_solutions_available := supply_chain_solutions_available r;
     quality_certifications := quality_certifications r;
     business_metrics := business_metrics r;
     commercial_capabilities := commercial_capabilities r;
     website := website r;
     country := country r;
     region := region r;
     year_of_establishment := year_of_establishment r;
     company_ownership := company_ownership r;
     management_structure := management_structure r;
     factory_locations := factory_locations r;
     key_clients := key_clients r;
     contact_person := contact_person r;
     contact_number := contact_number r;
     email := email r;
     capability_to_export := capability_to_export r;
     global_presence := global_presence r;
     products_services_offered := products_services_offered r;
     end_use_applications := end_use_applications r;
     key_usps := key_usps r;
     total_capacity_units_per_annum := total_capacity_units_per_annum r;
     open_capacity_percent := open_capacity_percent r;
     process_1 := process_1 r;
     process_2 := process_2 r;
     process_3 := process_3 r;
     other_certifications := other_certifications r;
     annual_revenues_usd_mn := annual_revenues_usd_mn r;
     number_of_employees := number_of_employees r;
     pricing_capabilities := pricing_capabilities r;
     lead_time := lead_time r;
     payment_terms := payment_terms r;
     sources := sources r;
     notes := notes r |}.

Definition set_email (r : SupplierRecord) (v : option string) : SupplierRecord :=
  {| serial_number := serial_number r;
     name := name r;
     company_details := company_details r;
     export_capabilities := export_capabilities r;
     operational_experience_years := operational_experience_years r;
     product_service_capability := product_service_capability r;
     annual_capacity_mt := annual_capacity_mt r;
     process_capabilities := process_capabilities r;
     supply_chain_solutions_available := supply_chain_solutions_available r;
     quality_certifications := quality_certifications r;
     business_metrics := business_metrics r;
     commercial_capabilities := commercial_capabilities r;
     website := website r;
     country := country r;
     region := region r;
     year_of_establishment := year_of_establishment r;
     company_ownership := company_ownership r;
     management_structure := management_structure r;
     factory_locations := factory_locations r;
     key_clients := key_clients r;
     contact_person := contact_person r;
     contact_number := contact_number r;
     email := v;
     capability_to_export := capability_to_export r;
     global_presence := global_presence r;
     products_services_offered := products_services_offered r;
     end_use_applications := end_use_applications r;
     key_usps := key_usps r;
     total_capacity_units_per_annum := total_capacity_units_per_annum r;
     open_capacity_percent := open_capacity_percent r;
     process_1 := process_1 r;
     process_2 := process_2 r;
     process_3 := process_3 r;
     other_certifications := other_certifications r;
     annual_revenues_usd_mn := annual_revenues_usd_mn r;
     number_of_employees := number_of_employees r;
     pricing_capabilities := pricing_capabilities r;
     lead_time := lead_time r;
     payment_terms := payment_terms r;
     sources := sources r;
     notes := notes r |}.

Definition set_contact_number (r : SupplierRecord) (v : option string) : SupplierRecord :=
  {| serial_number := serial_number r;
     name := name r;
     company_details := company_details r;
     export_capabilities := export_capabilities r;
     operational_experience_years := operational_experience_years r;
     product_service_capability := product_service_capability r;
     annual_capacity_mt := annual_capacity_mt r;
     process_capabilities := process_capabilities r;
     supply_chain_solutions_available := supply_chain_solutions_available r;
     quality_certifications := quality_certifications r;
     business_metrics := business_metrics r;
     commercial_capabilities := commercial_capabilities r;
     website := website r;
     country := country r;
     region := region r;
     year_of_establishment := year_of_establishment r;
     company_ownership := company_ownership r;
     management_structure := management_structure r;
     factory_locations := factory_locations r;
     key_clients := key_clients r;
     contact_person := contact_person r;
     contact_number := v;
     email := email r;
     capability_to_export := capability_to_export r;
     global_presence := global_presence r;
     products_services_offered := products_services_offered r;
     end_use_applications := end_use_applications r;
     key_usps := key_usps r;
     total_capacity_units_per_annum := total_capacity_units_per_annum r;
     open_capacity_percent := open_capacity_percent r;
     process_1 := process_1 r;
     process_2 := process_2 r;
     process_3 := process_3 r;
     other_certifications := other_certifications r;
     annual_revenues_usd_mn := annual_revenues_usd_mn r;
     number_of_employees := number_of_employees r;
     pricing_capabilities := pricing_capabilities r;
     lead_time := lead_time r;
     payment_terms := payment_terms r;
     sources := sources r;
     notes := notes r |}.

(* ------------------------------------------------------------------ *)
(** * The parsed page, the network and the effects *)

(** What the script reads from a [bs4] element. *)
Record Tag : Type := {
  attrs : list (string * string);   (* the attributes, for [tag.get] and [tag[...]] *)
  tag_string : option string;       (* [tag.string] *)
  tag_text : string                 (* [tag.get_text(" ", strip=True)] *)
}.

(** [tag.get(key)] and [tag.get(key, default)]. *)
Fixpoint assoc (key : string) (l : list (string * string)) : option string :=
  match l with
  | [] => None
  | (k, v) :: l' => if String.eqb k key then Some v else assoc key l'
  end.

Definition tag_get (t : Tag) (key : string) : option string := assoc key (attrs t).

Definition tag_get_default (t : Tag) (key default : string) : string :=
  match tag_get t key with Some v => v | None => default end.

(** What the script reads from a parsed document. *)
Record Soup : Type := {
  soup_title : option Tag;             (* [soup.title] *)
  soup_find_h1 : option Tag;           (* [soup.find("h1")] *)
  soup_find_meta_description : option Tag;
                       (* [soup.find("meta", attrs={"name": "description"})] *)
  soup_find_all_p : list Tag;          (* [soup.find_all("p")] *)
  soup_select_a : list Tag;            (* [soup.select("a")] *)
  soup_get_text : string               (* [soup.get_text(" ", strip=True)] *)
}.

(** A [requests] response, and what [session.get] does with a request:
    it returns a response or raises a [RequestException] (a timeout, a
    connection or DNS failure) with some message. *)
Record Response : Type := {
  status_code : Z;
  reason : string;
  text : string
}.

Inductive get_outcome : Type :=
| Responds (r : Response)
| Fails (msg : string).

(** The surroundings of a run: the [lxml] parser behind [BeautifulSoup],
    the network behind the session, and the check of a bracketed host in
    the [urlparse] of the CPython at hand (see [Urllib.netloc]).  The
    network answers a request according to the URL and to the number of
    requests sent before. *)
Class Environment : Type := {
  BeautifulSoup : string -> Soup;
  network : nat -> string -> get_outcome;
  check_bracketed_netloc : string -> option string
}.

(** The exceptions of a run: the one the script handles, and the two
    that [urlparse] and [time.sleep] raise and the script does not
    handle.  [str(exc)] is the message. *)
Inductive exn : Type :=
| RequestException (msg : string)
| ValueError (msg : string)
| OverflowError (msg : string).

Definition str_of_exn (e : exn) : string :=
  match e with
  | RequestException msg => msg
  | ValueError msg => msg
  | OverflowError msg => msg
  end.

Definition is_RequestException (e : exn) : bool :=
  match e with RequestException _ => true | _ => false end.

(** The float passed as [delay_s], by what [time.sleep] does with it: a
    length it sleeps for, given in milliseconds; a negative number; a
    NaN; or a number, infinite or not, beyond the range of the clock. *)
Inductive duration : Type :=
| Millis (ms : N)
| Negative
| NotANumber
| OutOfRange.

(** The exception [time.sleep] raises on its argument, if any. *)
Definition sleep_error (d : duration) : option exn :=
  match d with
  | Millis _ => None
  | Negative => Some (ValueError "sleep length must be non-negative")
  | NotANumber => Some (ValueError "Invalid value NaN (not a number)")
  | OutOfRange =>
      Some (OverflowError "timestamp too large to convert to C _PyTime_t")
  end.

(** What a run does to the outside, in order. *)
Inductive event : Type :=
| Request (url : string)
| Sleep (d : duration).

Definition is_request (e : event) : bool :=
  match e with Request _ => true | Sleep _ => false end.

Definition requests_sent (tr : list event) : nat :=
  List.length (filter is_request tr).

(** A computation returns a value or raises, and extends the trace. *)
Inductive result (A : Type) : Type :=
| Returns (a : A)
| Raises (e : exn).

Arguments Returns {A} a.
Arguments Raises {A} e.

Definition M (A : Type) : Type := list event -> result A * list event.

Definition ret {A} (a : A) : M A := fun tr => (Returns a, tr).

Definition raise {A} (e : exn) : M A := fun tr => (Raises e, tr).

Definition bind {A B} (c : M A) (f : A -> M B) : M B :=
  fun tr =>
    match c tr with
    | (Returns a, tr') => f a tr'
    | (Raises e, tr') => (Raises e, tr')
    end.

(** [try: c except requests.RequestException as exc: h exc]: any other
    exception goes through. *)
Definition try_except {A} (c : M A) (h : exn -> M A) : M A :=
  fun tr =>
    match c tr with
    | (Returns a, tr') => (Returns a, tr')
    | (Raises e, tr') =>
        if is_RequestException e then h e tr' else (Raises e, tr')
    end.

(** A computation without effect that returns or raises. *)
Definition lift {A} (r : result A) : M A := fun tr => (r, tr).

Notation "x <- c1 ;; c2" := (bind c1 (fun x => c2))
  (at level 61, c1 at next level, right associativity).

(** [time.sleep(d)]. *)
Definition time_sleep (d : duration) : M unit :=
  fun tr =>
    match sleep_error d with
    | Some e => (Raises e, tr)
    | None => (Returns tt, tr ++ [Sleep d])
    end.

(** The functions of the script.  The [session] argument of the Python
    functions is the network of the environment; everything else is passed
    as in the script. *)
Section Script.

Context {env : Environment}.

(** [urlparse(url).netloc]. *)
Definition urlparse_netloc (url : string) : result string :=
  match Urllib.netloc check_bracketed_netloc url with
  | inl n => Returns n
  | inr msg => Raises (ValueError msg)
  end.

(** [session.get(url, timeout=30)]. *)
Definition session_get (url : string) : M Response :=
  fun tr =>
    match network (requests_sent tr) url with
    | Responds r => (Returns r, tr ++ [Request url])
    | Fails msg => (Raises (RequestException msg), tr ++ [Request url])
    end.

(** [response.raise_for_status()]: an [HTTPError], which is a
    [RequestException], on a status from 400 to 599. *)
Definition raise_for_status (url : string) (r : Response) : M unit :=
  let st := status_code r in
  if ((400 <=? st) && (st <? 500))%Z then
    raise (RequestException
             (str_of_int st ++ " Client Error: " ++ reason r ++ " for url: " ++ url))
  else if ((500 <=? st) && (st <? 600))%Z then
    raise (RequestException
             (str_of_int st ++ " Server Error: " ++ reason r ++ " for url: " ++ url))
  else ret tt.

Definition _scraperapi_url (api_key target_url country_code : string) : string :=
  ("https://api.scraperapi.com/?" ++
   "api_key=" ++ api_key ++ "&url=" ++ Urllib.quote_plus target_url ++
   "&country_code=" ++ country_code)%string.

Definition _get_html (api_key url country_code : string) : M string :=
  let target := _scraperapi_url api_key url country_code in
  response <- session_get target ;;
  _ <- raise_for_status target response ;;
  ret (text response).

(** The loop of [google_search] over the anchors, [links] being the list
    built so far; the length test comes after the anchor is handled. *)
Fixpoint google_search_loop (results : list Tag) (num_results : Z)
         (links : list string) : list string :=
  match results with
  | [] => links
  | result :: rest =>
      let href := tag_get_default result "href" "" in
      let links :=
        if startswith href "/url?q=" then
          let link := first_item (split (last_item (split href "/url?q=")) "&") in
          if truthy link && negb (contains "google.com" link)
          then links ++ [link] else links
        else links in
      if (len links >=? num_results)%Z then links
      else google_search_loop rest num_results links
  end.

(** The value of the local [search_url] of [google_search]. *)
Definition search_url_of (query : string) (num_results : Z) : string :=
  ("https://www.google.com/search?q=" ++ Urllib.quote_plus query ++
   "&num=" ++ str_of_int num_results)%string.

Definition google_search (api_key query country_code : string) (num_results : Z)
  : M (list string) :=
  let search_url := search_url_of query num_results in
  html <- _get_html api_key search_url country_code ;;
  let soup := BeautifulSoup html in
  ret (dict_fromkeys (google_search_loop (soup_select_a soup) num_results [])).

Definition _page_summary (soup : Soup) : string :=
  let from_paragraphs :=
    let paragraphs := map tag_text (soup_find_all_p soup) in
    if nonempty paragraphs
    then _cleanup_text (join " " (slice_to 3 paragraphs))
    else "" in
  match soup_find_meta_description soup with
  | Some meta =>
      match tag_get meta "content" with
      | Some content =>
          if truthy content then _cleanup_text content else from_paragraphs
      | None => from_paragraphs
      end
  | None => from_paragraphs
  end.

Definition _best_title (soup : Soup) : string :=
  let from_h1 :=
    match soup_find_h1 soup with
    | Some h1 => _cleanup_text (tag_text h1)
    | None => ""
    end in
  match soup_title soup with
  | Some title =>
      match tag_string title with
      | Some s => if truthy s then _cleanup_text s else from_h1
      | None => from_h1
      end
  | None => from_h1
  end.

(** Lines 142 to 162 of [scrape_supplier_page]: the record built from the
    fetched [html].  In [title or urlparse(url).netloc] the URL is parsed
    only when the title is empty, and [urlparse] may then raise. *)
Definition page_record (url html country region : string)
  : result SupplierRecord :=
  let soup := BeautifulSoup html in
  let text := soup_get_text soup in
  let emails := _extract_emails text in
  let phones := _extract_phones text in
  let title := _best_title soup in
  let summary := _page_summary soup in
  match (if truthy title then Returns title else urlparse_netloc url) with
  | Raises e => Raises e
  | Returns name_ =>
      Returns
        (new_record 0
           name_
           (or_None summary)
           (Some url)
           (Some country)
           (Some region)
           (if nonempty phones then Some (join ", " phones) else None)
           (if nonempty emails then Some (join ", " emails) else None)
           [url]
           None)
  end.

Definition scrape_supplier_page (api_key url country region country_code : string)
  : M SupplierRecord :=
  html <- _get_html api_key url country_code ;;
  lift (page_record url html country region).

(** The record is updated in place; the updated record is returned. *)
Definition enrich_record_from_directory (record : SupplierRecord)
           (directory_text : string) : SupplierRecord :=
  let emails := _extract_emails directory_text in
  let phones := _extract_phones directory_text in
  let record :=
    if nonempty emails && negb (truthy_opt (email record))
    then set_email record (Some (join ", " emails)) else record in
  if nonempty phones && negb (truthy_opt (contact_number record))
  then set_contact_number record (Some (join ", " phones)) else record.

(** The record built in the [except] branch when the fetch of [url]
    raised [exc]; [urlparse] may raise here too. *)
Definition failure_record (idx : Z) (url country region : string) (exc : exn)
  : result SupplierRecord :=
  match urlparse_netloc url with
  | Raises e => Raises e
  | Returns name_ =>
      Returns
        (new_record idx
           name_
           None
           (Some url)
           (Some country)
           (Some region)
           None
           None
           [url]
           (Some ("Failed to fetch page: " ++ str_of_exn exc)%string))
  end.

(** The loop of [build_records] over [enumerate(links, start=idx)],
    [records] being the list built so far. *)
Fixpoint build_records_loop (api_key country region country_code : string)
         (delay_s : duration) (links : list string) (idx : Z)
         (records : list SupplierRecord) : M (list SupplierRecord) :=
  match links with
  | [] => ret records
  | url :: rest =>
      records <-
        try_except
          (record <- scrape_supplier_page api_key url country region country_code ;;
           let record := set_serial_number record idx in
           let records := records ++ [record] in
           _ <- time_sleep delay_s ;;
           ret records)
          (fun exc =>
             record <- lift (failure_record idx url country region exc) ;;
             ret (records ++ [record])) ;;
      build_records_loop api_key country region country_code delay_s
                         rest (idx + 1) records
  end.

Definition build_records (api_key query country region country_code : string)
           (num_results : Z) (delay_s : duration) : M (list SupplierRecord) :=
  links <- google_search api_key query country_code num_results ;;
  build_records_loop api_key country region country_code delay_s links 1 [].

End Script.

(* ------------------------------------------------------------------ *)
(** * Vocabulary of the properties *)

(** [w] occurs in [s] as a contiguous piece. *)
Definition occurs_in (w s : string) : Prop :=
  exists before after, s = (before ++ w ++ after)%string.

(** Ascending in the order of [str] with no two equal neighbours: a
    sorted list without duplicates. *)
Definition ascending (l : list string) : Prop :=
  StronglySorted (fun a b => String.ltb a b = true) l.

(** The number of decimal digits of a string, whatever separates them. *)
Fixpoint digit_count (s : string) : nat :=
  match s with
  | EmptyString => 0
  | String c s' => (if isdecimal c then 1 else 0) + digit_count s'
  end.

(** The position of the first occurrence of [x] in [l] ([length l] when
    there is none). *)
Fixpoint first_index (x : string) (l : list string) : nat :=
  match l with
  | [] => 0
  | y :: l' => if String.eqb x y then 0 else S (first_index x l')
  end.

(** [out] lists elements of [l] in the order in which they are first
    seen in [l]. *)
Definition first_seen_order (out l : list string) : Prop :=
  forall i j x y,
    nth_error out i = Some x -> nth_error out j = Some y -> i < j ->
    first_index x l < first_index y l.

(** What a dictionary holds after the keys of [pre] were inserted:
    each key once, in the order of first insertion. *)
Definition keys_of (d pre : list string) : Prop :=
  NoDup d /\ (forall x, In x d <-> In x pre) /\ first_seen_order d pre.

(** The outbound link an anchor of a result listing carries, if it
    carries one: the test and the extraction of the body of the loop of
    [google_search], for one anchor. *)
Definition outbound_link (result : Tag) : option string :=
  let href := tag_get_default result "href" "" in
  if startswith href "/url?q=" then
    let link := first_item (split (last_item (split href "/url?q=")) "&") in
    if truthy link && negb (contains "google.com" link) then Some link else None
  else None.

Fixpoint outbound_links (results : list Tag) : list string :=
  match results with
  | [] => []
  | result :: rest =>
      match outbound_link result with
      | Some link => link :: outbound_links rest
      | None => outbound_links rest
      end
  end.

Section Attempts.

Context {env : Environment}.

(** The outcome of the fetch of [url] when it is request number [n] of
    the session, counting from 0.  The trace of [n] requests stands for
    any trace with [n] requests (lemma [_get_html_by_count]). *)
Definition fetch_as_request (n : nat) (api_key url country_code : string)
  : result string :=
  fst (_get_html api_key url country_code (repeat (Request "") n)).

(** One turn of the loop of [build_records] for [url] at position [idx],
    sent as request number [sent]: the record appended, or the exception
    that leaves the loop, and the events of the turn. *)
Definition attempt (api_key country region country_code : string)
           (delay_s : duration) (url : string) (idx : Z) (sent : nat)
  : result SupplierRecord * list event :=
  let request := Request (_scraperapi_url api_key url country_code) in
  match fetch_as_request sent api_key url country_code with
  | Returns html =>
      match page_record url html country region with
      | Raises e => (Raises e, [request])
      | Returns record =>
          match sleep_error delay_s with
          | Some e => (Raises e, [request])
          | None => (Returns (set_serial_number record idx),
                     [request; Sleep delay_s])
          end
      end
  | Raises exc =>
      if is_RequestException exc
      then (failure_record idx url country region exc, [request])
      else (Raises exc, [request])
  end.

(** The turns of the loop on [links], the first of them numbered [idx]
    and sent as request number [sent], up to the first exception that
    leaves the loop. *)
Fixpoint attempts (api_key country region country_code : string)
         (delay_s : duration) (links : list string) (idx : Z) (sent : nat)
  : result (list SupplierRecord) * list event :=
  match links with
  | [] => (Returns [], [])
  | url :: rest =>
      match attempt api_key country region country_code delay_s url idx sent with
      | (Raises e, events) => (Raises e, events)
      | (Returns record, events) =>
          match attempts api_key country region country_code delay_s
                         rest (idx + 1) (S sent) with
          | (Returns records, events') => (Returns (record :: records),
                                           events ++ events')
          | (Raises e, events') => (Raises e, events ++ events')
          end
      end
  end.

(** [urlparse] accepts the URL. *)
Definition urlparse_accepts (url : string) : Prop :=
  exists n, urlparse_netloc url = Returns n.

End Attempts.

(** A computation that leaves no event in the trace, whatever the trace
    was: it sends no request and does not pause. *)
Definition performs_no_io {A} (c : M A) : Prop :=
  forall tr, snd (c tr) = tr.

(** No request of the trace comes directly after another request: a
    pause separates any two consecutive requests. *)
Fixpoint paused_between_requests (tr : list event) : bool :=
  match tr with
  | [] => true
  | e :: tr' =>
      match e, tr' with
      | Request _, Request _ :: _ => false
      | _, _ => true
      end && paused_between_requests tr'
  end.

(* ------------------------------------------------------------------ *)
(** * A canned environment

    A result listing whose anchors carry the given [href] values, a
    supplier page, an empty page, and a network that answers by the host
    named in the requested URL. *)

Definition anchor (href : string) : Tag :=
  {| attrs := [("href", href)]; tag_string := None; tag_text := "" |}.

Definition listing_soup (hrefs : list string) : Soup :=
  {| soup_title := None;
     soup_find_h1 := None;
     soup_find_meta_description := None;
     soup_find_all_p := [];
     soup_select_a := map anchor hrefs;
     soup_get_text := "" |}.

Definition acme_soup : Soup :=
  {| soup_title :=
       Some {| attrs := []; tag_string := Some "Acme Co"; tag_text := "Acme Co" |};
     soup_find_h1 := None;
     soup_find_meta_description := None;
     soup_find_all_p :=
       [{| attrs := []; tag_string := Some "Write to contact@acme.example";
           tag_text := "Write to contact@acme.example" |}];
     soup_select_a := [];
     soup_get_text := "Acme Co Write to contact@acme.example" |}.

Definition empty_soup : Soup := listing_soup [].

Definition canned_parser (hrefs : list string) (html : string) : Soup :=
  if String.eqb html "<listing>" then listing_soup hrefs
  else if String.eqb html "<acme>" then acme_soup
  else empty_soup.

Definition ok (body : string) : get_outcome :=
  Responds {| status_code := 200; reason := "OK"; text := body |}.

Definition canned_network (n : nat) (url : string) : get_outcome :=
  if contains "google.com" url then ok "<listing>"
  else if contains "a.example" url then ok "<acme>"
  else if contains "b.example" url then Fails "Read timed out."
  else if contains "d.example" url then ok ""
  else Responds {| status_code := 500; reason := "Internal Server Error";
                   text := "" |}.

Definition canned (hrefs : list string) : Environment :=
  {| BeautifulSoup := canned_parser hrefs;
     network := canned_network;
     check_bracketed_netloc := fun _ => None |}.

(** The listing of the scenario of the specification: the search
    returns the URLs of [a.example], whose page is fetched, and of
    [b.example], whose fetch times out. *)
Definition acme_listing : list string :=
  ["/url?q=http://a.example/&sa=U"; "/url?q=http://b.example/&sa=U"].

(** The same listing behind a network on which every page answers with
    the supplier page. *)
Definition canned_all_up (hrefs : list string) : Environment :=
  {| BeautifulSoup := canned_parser hrefs;
     network := fun _ url =>
       if contains "google.com" url then ok "<listing>" else ok "<acme>";
     check_bracketed_netloc := fun _ => None |}.

(* ------------------------------------------------------------------ *)
(** * Further vocabulary *)

(** In [s], every whitespace character is a space and no space follows
    another; [prev] tells whether a space came just before [s]. *)
Fixpoint single_spaced (s : string) (prev : bool) : bool :=
  match s with
  | EmptyString => true
  | String c s' =>
      if isspace c
      then Ascii.eqb c " " && negb prev && single_spaced s' true
      else single_spaced s' false
  end.

(** The last character of [s] is whitespace. *)
Fixpoint ends_with_space (s : string) : bool :=
  match s with
  | EmptyString => false
  | String c EmptyString => isspace c
  | String _ s' => ends_with_space s'
  end.

(** A text with its words separated by single spaces and no whitespace
    at either end. *)
Definition is_clean (s : string) : bool :=
  single_spaced s true && negb (ends_with_space s).

(** [s] starts with a character that is not whitespace. *)
Definition starts_nonspace (s : string) : bool :=
  match s with
  | EmptyString => false
  | String c _ => negb (isspace c)
  end.

(** The fields of a record that the script never fills are absent. *)
Definition reserved_fields_absent (r : SupplierRecord) : Prop :=
  export_capabilities r = None /\
  operational_experience_years r = None /\
  product_service_capability r = None /\
  annual_capacity_mt r = None /\
  process_capabilities r = None /\
  supply_chain_solutions_available r = None /\
  quality_certifications r = None /\
  business_metrics r = None /\
  commercial_capabilities r = None /\
  year_of_establishment r = None /\
  company_ownership r = None /\
  management_structure r = None /\
  factory_locations r = None /\
  key_clients r = None /\
  contact_person r = None /\
  capability_to_export r = None /\
  global_presence r = None /\
  products_services_offered r = None /\
  end_use_applications r = None /\
  key_usps r = None /\
  total_capacity_units_per_annum r = None /\
  open_capacity_percent r = None /\
  process_1 r = None /\
  process_2 r = None /\
  process_3 r = None /\
  other_certifications r = None /\
  annual_revenues_usd_mn r = None /\
  number_of_employees r = None /\
  pricing_capabilities r = None /\
  lead_time r = None /\
  payment_terms r = None.

(** An optional text is absent or not empty: never [Some ""]. *)
Definition absent_or_nonempty (o : option string) : Prop :=
  match o with
  | None => True
  | Some s => s <> EmptyString
  end.

(** The events of a trace that are pauses. *)
Definition pauses (tr : list event) : list event :=
  filter (fun e => negb (is_request e)) tr.

(** The records that carry no note. *)
Definition without_note (records : list SupplierRecord) : list SupplierRecord :=
  filter (fun r => match notes r with None => true | Some _ => false end) records.

(** The listing behind a network that is down: every request fails. *)
Definition canned_down (hrefs : list string) : Environment :=
  {| BeautifulSoup := canned_parser hrefs;
     network := fun _ _ => Fails "Connection refused";
     check_bracketed_netloc := fun _ => None |}.

(** No character of [s] is ["&"]. *)
Definition no_ampersand (s : string) : bool :=
  string_forall (fun c => negb (Ascii.eqb c "&")) s.

(** Reading back what [quote_plus] wrote.  [st] tells how much of an
    escape has been read and [lead] holds the first byte of a two-byte
    UTF-8 sequence whose second byte is still to come. *)
Inductive escape_state : Type :=
| Plain
| SawPercent
| SawHigh (hi : N).

Definition hex_value (c : ascii) : N :=
  if isdecimal c then (ord c - 48)%N else (ord c - 55)%N.

Fixpoint quote_plus_inverse_from (s : string) (st : escape_state)
         (lead : option N) : string :=
  match s with
  | EmptyString => EmptyString
  | String c s' =>
      match st with
      | Plain =>
          if Ascii.eqb c "%" then quote_plus_inverse_from s' SawPercent lead
          else String (if Ascii.eqb c "+" then " "%char else c)
                      (quote_plus_inverse_from s' Plain lead)
      | SawPercent => quote_plus_inverse_from s' (SawHigh (hex_value c)) lead
      | SawHigh hi =>
          let b := (16 * hi + hex_value c)%N in
          match lead with
          | Some l =>
              String (ascii_of_N ((l - 192) * 64 + (b - 128)))
                     (quote_plus_inverse_from s' Plain None)
          | None =>
              if (b <? 128)%N
              then String (ascii_of_N b) (quote_plus_inverse_from s' Plain None)
              else quote_plus_inverse_from s' Plain (Some b)
          end
      end
  end.

Definition quote_plus_inverse (s : string) : string :=
  quote_plus_inverse_from s Plain None.

(** The characters [quote_plus] writes: the ones it never escapes, and
    ["+"] and ["%"]. *)
Definition quoted_char (c : ascii) : bool :=
  Urllib.always_safe c || Ascii.eqb c "+" || Ascii.eqb c "%".

(** A page with a title above the level-1 heading [Acme Co], and a page
    with a description above the paragraph [We sell.], each behind the
    canned network. *)
Definition titled_soup (title : string) : Soup :=
  {| soup_title :=
       Some {| attrs := []; tag_string := Some title; tag_text := title |};
     soup_find_h1 :=
       Some {| attrs := []; tag_string := Some "Acme Co"; tag_text := "Acme Co" |};
     soup_find_meta_description := None;
     soup_find_all_p := [];
     soup_select_a := [];
     soup_get_text := "" |}.

Definition described_soup (description : string) : Soup :=
  {| soup_title := None;
     soup_find_h1 := None;
     soup_find_meta_description :=
       Some {| attrs := [("name", "description"); ("content", description)];
               tag_string := None; tag_text := "" |};
     soup_find_all_p :=
       [{| attrs := []; tag_string := Some "We sell."; tag_text := "We sell." |}];
     soup_select_a := [];
     soup_get_text := "" |}.

Definition canned_page (soup : Soup) : Environment :=
  {| BeautifulSoup := fun _ => soup;
     network := canned_network;
     check_bracketed_netloc := fun _ => None |}.

(** The placeholder of the scenario, for the page of [b.example]. *)
Definition b_placeholder : SupplierRecord :=
  new_record 2 "b.example" None (Some "http://b.example/") (Some "China")
             (Some "Asia") None None ["http://b.example/"]
             (Some "Failed to fetch page: Read timed out.").

(** A listing with one link, whose network location opens a square
    bracket that nothing closes. *)
Definition bracket_listing : list string := ["/url?q=http://[bad/&sa=U"].

(* ------------------------------------------------------------------ *)
(** * The script on examples *)

Example _extract_emails_example :
  _extract_emails "Mail bob@x.org, a.b+c@foo-bar.co.uk. or Bob@x.org; not x@y.z1, bob@x.org"
  = ["Bob@x.org"; "a.b+c@foo-bar.co.uk"; "bob@x.org"].
Proof. vm_compute. reflexivity. Qed.

Example _extract_phones_example :
  _extract_phones "Call +86 (010) 1234-5678 or 555-1234, not 12345 nor 2024-01-15"
  = ["+86 (010) 1234-5678"; "555-1234"].
Proof. vm_compute. reflexivity. Qed.

Example _cleanup_text_example :
  _cleanup_text (String "009" (String "010" "  Acme   Co  ")) = "Acme Co".
Proof. vm_compute. reflexivity. Qed.

Example netloc_examples :
  map (Urllib.netloc (fun _ => None))
      ["http://a.example/"; "https://user@www.b.example:8080/x?y#z";
       "//c.example"; "/preferences?hl=en"; "mailto:x@d.example";
       "http://[::1]:8080/"; "http://[bad/"; "http://bad]/"]
  = [inl "a.example"; inl "user@www.b.example:8080"; inl "c.example";
     inl ""; inl ""; inl "[::1]:8080";
     inr "Invalid IPv6 URL"; inr "Invalid IPv6 URL"].
Proof. vm_compute. reflexivity. Qed.

Example search_url_example :
  _scraperapi_url "KEY" (search_url_of "acme suppliers" 2) "cn"
  = "https://api.scraperapi.com/?api_key=KEY&url=https%3A%2F%2Fwww.google.com%2Fsearch%3Fq%3Dacme%2Bsuppliers%26num%3D2&country_code=cn".
Proof. vm_compute. reflexivity. Qed.

(** The scenario of the specification: two URLs found, the first page
    fetched, the fetch of the second timing out. *)
Example scenario_records :
  match fst (build_records (env := canned acme_listing)
                           "KEY" "acme suppliers" "China" "Asia" "cn" 2 (Millis 1500) [])
  with
  | Returns records =>
      map (fun r => (serial_number r, name r, email r, notes r)) records
  | Raises _ => []
  end
  = [(1%Z, "Acme Co", Some "contact@acme.example", None);
     (2%Z, "b.example", None, Some "Failed to fetch page: Read timed out.")].
Proof. vm_compute. reflexivity. Qed.

(** A link with an unmatched bracket, on a page that cannot be fetched:
    [urlparse] raises in the [except] branch and the run ends there.  A
    negative delay: [time.sleep] raises after the first page. *)
Example aborted_runs :
  fst (build_records (env := canned bracket_listing)
                     "KEY" "acme suppliers" "China" "Asia" "cn" 2 (Millis 1500) [])
  = Raises (ValueError "Invalid IPv6 URL") /\
  fst (build_records (env := canned acme_listing)
                     "KEY" "acme suppliers" "China" "Asia" "cn" 2 Negative [])
  = Raises (ValueError "sleep length must be non-negative").
Proof. vm_compute. split; reflexivity. Qed.

(* ------------------------------------------------------------------ *)
(** * Facts about strings *)

Section StringFacts.

Local Open Scope string_scope.

Lemma append_assoc (a b c : string) : (a ++ b) ++ c = a ++ (b ++ c).
Proof. induction a as [|x a IH]; simpl; [reflexivity | now rewrite IH]. Qed.

Lemma append_nil_r (a : string) : a ++ "" = a.
Proof. induction a as [|x a IH]; simpl; [reflexivity | now rewrite IH]. Qed.

Lemma length_append (a b : string) :
  String.length (a ++ b) = String.length a + String.length b.
Proof. induction a as [|x a IH]; simpl; [reflexivity | now rewrite IH]. Qed.

Lemma substring_prefix (w rest : string) :
  String.substring 0 (String.length w) (w ++ rest) = w.
Proof.
  induction w as [|x w IH]; simpl.
  - destruct rest; reflexivity.
  - now rewrite IH.
Qed.

Lemma occurs_in_refl (s : string) : occurs_in s s.
Proof. exists "", "". simpl. now rewrite append_nil_r. Qed.

Lemma occurs_in_tail (w s : string) (c : ascii) :
  occurs_in w s -> occurs_in w (String c s).
Proof. intros (a & b & ->). now exists (String c a), b. Qed.

Lemma occurs_in_prefix (w rest : string) : occurs_in w (w ++ rest).
Proof. now exists "", rest. Qed.

Lemma truthy_false (s : string) : truthy s = false <-> s = "".
Proof. destruct s; simpl; split; congruence. Qed.

Lemma truthy_true (s : string) : truthy s = true <-> s <> "".
Proof. destruct s; simpl; split; congruence. Qed.

End StringFacts.

(** ** The order of [str] *)

Section StringOrder.

Lemma ascii_compare_N (a b : ascii) :
  Ascii.compare a b = N.compare (N_of_ascii a) (N_of_ascii b).
Proof. reflexivity. Qed.

Lemma ascii_compare_refl (a : ascii) : Ascii.compare a a = Eq.
Proof. rewrite ascii_compare_N. apply N.compare_refl. Qed.

Lemma string_compare_refl (s : string) : String.compare s s = Eq.
Proof.
  induction s as [|c s IH]; simpl; [reflexivity|].
  now rewrite ascii_compare_refl.
Qed.

Lemma string_compare_trans (c : comparison) (s1 s2 s3 : string) :
  String.compare s1 s2 = c -> String.compare s2 s3 = c -> String.compare s1 s3 = c.
Proof.
  revert s2 s3.
  induction s1 as [|x s1 IH]; intros [|y s2] [|z s3]; simpl; try congruence.
  rewrite !ascii_compare_N.
  destruct (N.compare_spec (N_of_ascii x) (N_of_ascii y)) as [E1|L1|G1];
    destruct (N.compare_spec (N_of_ascii y) (N_of_ascii z)) as [E2|L2|G2];
    intros H1 H2; subst c; try congruence.
  - rewrite E1, E2, N.compare_refl. now apply IH with s2.
  - rewrite E1. now apply N.compare_lt_iff in L2 as ->.
  - rewrite E1. now apply N.compare_gt_iff in G2 as ->.
  - rewrite <- E2. now apply N.compare_lt_iff in L1 as ->.
  - assert (L : (N_of_ascii x < N_of_ascii z)%N) by lia.
    now apply N.compare_lt_iff in L as ->.
  - rewrite <- E2. now apply N.compare_gt_iff in G1 as ->.
  - assert (L : (N_of_ascii z < N_of_ascii x)%N) by lia.
    now apply N.compare_gt_iff in L as ->.
Qed.

Lemma ltb_irrefl (s : string) : String.ltb s s = false.
Proof. unfold String.ltb. now rewrite string_compare_refl. Qed.

Lemma ltb_trans (a b c : string) :
  String.ltb a b = true -> String.ltb b c = true -> String.ltb a c = true.
Proof.
  unfold String.ltb. intros H1 H2.
  destruct (String.compare a b) eqn:E1; try discriminate.
  destruct (String.compare b c) eqn:E2; try discriminate.
  now rewrite (string_compare_trans _ _ _ _ E1 E2).
Qed.

Lemma leb_false_ltb (a b : string) :
  String.leb a b = false -> String.ltb b a = true.
Proof.
  unfold String.leb, String.ltb. rewrite (String.compare_antisym b a).
  destruct (String.compare a b); simpl; congruence.
Qed.

Lemma leb_neq_ltb (a b : string) :
  String.leb a b = true -> a <> b -> String.ltb a b = true.
Proof.
  unfold String.leb, String.ltb. intros H N.
  destruct (String.compare a b) eqn:E; try congruence.
  now apply String.compare_eq_iff in E.
Qed.

End StringOrder.

(** ** [sorted] and [set] *)

Section Sorting.

Lemma insert_sorted_perm (x : string) (l : list string) :
  Permutation (x :: l) (insert_sorted x l).
Proof.
  induction l as [|y l IH]; simpl; [reflexivity|].
  destruct (String.leb x y); [reflexivity|].
  rewrite perm_swap. now constructor.
Qed.

Lemma sorted_perm (l : list string) : Permutation l (sorted l).
Proof.
  induction l as [|x l IH]; simpl; [constructor|].
  rewrite <- insert_sorted_perm. now constructor.
Qed.

Lemma sorted_In (x : string) (l : list string) : In x (sorted l) <-> In x l.
Proof.
  split; apply Permutation_in; [symmetry|]; apply sorted_perm.
Qed.

Lemma insert_sorted_ascending (x : string) (l : list string) :
  ascending l -> ~ In x l -> ascending (insert_sorted x l).
Proof.
  unfold ascending. induction l as [|y l IH]; simpl; intros Hs Hn.
  - repeat constructor.
  - inversion Hs as [|? ? Hs' Hall]; subst.
    destruct (String.leb x y) eqn:E.
    + assert (Hxy : String.ltb x y = true) by (apply leb_neq_ltb; intuition).
      constructor; [assumption|].
      constructor; [assumption|].
      eapply Forall_impl; [|exact Hall].
      intros z Hz. now apply ltb_trans with y.
    + constructor; [apply IH; intuition|].
      apply (Permutation_Forall (insert_sorted_perm x l)).
      constructor; [now apply leb_false_ltb | assumption].
Qed.

Lemma sorted_ascending (l : list string) : NoDup l -> ascending (sorted l).
Proof.
  induction 1 as [|x l Hx Hnd IH]; simpl; [constructor|].
  apply insert_sorted_ascending; [assumption|].
  now rewrite sorted_In.
Qed.

Lemma ascending_NoDup (l : list string) : ascending l -> NoDup l.
Proof.
  induction 1 as [|x l Hs IH Hall]; constructor; [|assumption].
  intros Hin. rewrite Forall_forall in Hall.
  specialize (Hall x Hin). now rewrite ltb_irrefl in Hall.
Qed.

Lemma ascending_unique (l1 l2 : list string) :
  ascending l1 -> ascending l2 -> (forall x, In x l1 <-> In x l2) -> l1 = l2.
Proof.
  intros H1; revert l2.
  induction H1 as [|x l1 Hs1 IH Hall1]; intros l2 H2 Hiff.
  - destruct l2 as [|y l2]; [reflexivity|].
    destruct (proj2 (Hiff y)); now left.
  - destruct H2 as [|y l2 Hs2 Hall2].
    + destruct (proj1 (Hiff x)); now left.
    + rewrite Forall_forall in Hall1, Hall2.
      assert (x = y) as <-.
      { destruct (proj1 (Hiff x) (or_introl eq_refl)) as [E|Hx]; [congruence|].
        destruct (proj2 (Hiff y) (or_introl eq_refl)) as [E|Hy]; [congruence|].
        pose proof (ltb_trans _ _ _ (Hall1 _ Hy) (Hall2 _ Hx)) as F.
        now rewrite ltb_irrefl in F. }
      f_equal. apply IH; [assumption|].
      intros z; split; intros Hz.
      * destruct (proj1 (Hiff z) (or_intror Hz)) as [E|Hz']; [|assumption].
        subst z. specialize (Hall1 _ Hz). now rewrite ltb_irrefl in Hall1.
      * destruct (proj2 (Hiff z) (or_intror Hz)) as [E|Hz']; [|assumption].
        subst z. specialize (Hall2 _ Hz). now rewrite ltb_irrefl in Hall2.
Qed.

(** Whatever the order in which a set lists its elements, [sorted] gives
    the same list. *)
Lemma sorted_set_order (l l' : list string) :
  NoDup l' -> (forall x, In x l' <-> In x l) -> sorted l' = sorted (set_of l).
Proof.
  intros Hnd Hiff. apply ascending_unique.
  - now apply sorted_ascending.
  - apply sorted_ascending, NoDup_nodup.
  - intros x. rewrite !sorted_In. unfold set_of. rewrite nodup_In. apply Hiff.
Qed.

Lemma sorted_set_ascending (l : list string) : ascending (sorted (set_of l)).
Proof. apply sorted_ascending, NoDup_nodup. Qed.

Lemma sorted_set_In (x : string) (l : list string) :
  In x (sorted (set_of l)) <-> In x l.
Proof. rewrite sorted_In. apply nodup_In. Qed.

End Sorting.

(* ------------------------------------------------------------------ *)
(** * The matcher returns matches of the pattern *)

Section MatcherSound.

Local Open Scope string_scope.

Lemma concat_empty_cons (w : string) (ws : list string) :
  String.concat "" (w :: ws) = w ++ String.concat "" ws.
Proof.
  destruct ws as [|w' ws]; simpl; [now rewrite append_nil_r | reflexivity].
Qed.

Lemma at_least_sound (p : ascii -> bool) (s : string) :
  forall lo k x,
    at_least p lo s k = Some x ->
    exists w rest,
      s = w ++ rest /\ lo <= String.length w /\ string_forall p w = true /\
      k rest = Some x.
Proof.
  induction s as [|c s IH]; intros lo k x H; simpl in H.
  - destruct lo; [|discriminate]. exists "", "". simpl. auto.
  - assert (Hstop : match lo with 0 => k (String c s) | S _ => None end = Some x ->
                    exists w rest, String c s = w ++ rest /\
                      lo <= String.length w /\ string_forall p w = true /\
                      k rest = Some x).
    { destruct lo; [|discriminate]. intros Hk.
      exists "", (String c s). simpl. auto. }
    destruct (p c) eqn:Hp; [|now apply Hstop].
    destruct (at_least p (pred lo) s k) as [y|] eqn:E; [|now apply Hstop].
    injection H as ->.
    destruct (IH _ _ _ E) as (w & rest & -> & Hlen & Hall & Hk).
    exists (String c w), rest. simpl. rewrite Hp, Hall.
    repeat split; auto. lia.
Qed.

Lemma rmatch_sound (r : regex) :
  forall s k x,
    rmatch r s k = Some x ->
    exists w rest, s = w ++ rest /\ lang r w /\ k rest = Some x.
Proof.
  induction r as [p | a IHa b IHb | lo hi a IHa | lo p]; intros s k x H.
  - destruct s as [|c s]; simpl in H; [discriminate|].
    destruct (p c) eqn:Hp; [|discriminate].
    exists (String c ""), s. simpl. eauto.
  - simpl in H.
    destruct (IHa _ _ _ H) as (w1 & rest1 & -> & L1 & H1).
    destruct (IHb _ _ _ H1) as (w2 & rest2 & -> & L2 & H2).
    exists (w1 ++ w2), rest2. rewrite append_assoc. simpl. eauto 7.
  - simpl in H. revert lo s k x H.
    induction hi as [|n IHn]; intros lo s k x H.
    + destruct lo; [|discriminate].
      exists "", s. simpl. repeat split; auto.
      exists []. simpl. repeat split; auto.
    + assert (Hstop : match lo with 0 => k s | S _ => None end = Some x ->
                      exists w rest, s = w ++ rest /\
                        lang (Repeat lo (S n) a) w /\ k rest = Some x).
      { destruct lo; [|discriminate]. intros Hk.
        exists "", s. simpl. repeat split; auto.
        exists []. simpl. repeat split; auto. lia. }
      match type of H with
      | match ?m with _ => _ end = _ => destruct m as [y|] eqn:E
      end; [|now apply Hstop].
      injection H as ->.
      destruct (IHa _ _ _ E) as (w1 & rest1 & -> & L1 & H1).
      destruct (IHn _ _ _ _ H1) as (w2 & rest2 & -> & L2 & H2).
      exists (w1 ++ w2), rest2. rewrite append_assoc.
      repeat split; auto.
      simpl in L2. destruct L2 as (ws & Hlen & Hall & ->).
      exists (w1 :: ws). rewrite concat_empty_cons. simpl.
      repeat split; auto; lia.
  - simpl in H.
    destruct (at_least_sound _ _ _ _ _ H) as (w & rest & -> & Hlen & Hall & Hk).
    exists w, rest. simpl. auto.
Qed.

Lemma match_at_sound (r : regex) (s m : string) :
  match_at r s = Some m -> lang r m /\ exists rest, s = m ++ rest.
Proof.
  unfold match_at. destruct (rmatch r s Some) as [rest|] eqn:E; [|discriminate].
  intros [= <-].
  destruct (rmatch_sound _ _ _ _ E) as (w & rest' & -> & L & [= ->]).
  rewrite length_append, Nat.add_sub, substring_prefix. eauto.
Qed.

Lemma finditer_from_sound (r : regex) (s : string) :
  forall skip m,
    In m (finditer_from r s skip) -> lang r m /\ occurs_in m s.
Proof.
  induction s as [|c s IH]; intros skip m H; simpl in H; [contradiction|].
  assert (Htail : forall n, In m (finditer_from r s n) ->
                            lang r m /\ occurs_in m (String c s)).
  { intros n Hn. destruct (IH _ _ Hn). auto using occurs_in_tail. }
  destruct skip; [|now apply Htail with skip].
  destruct (match_at r (String c s)) as [m'|] eqn:E; [|now apply Htail with 0].
  destruct H as [<-|H]; [|now apply Htail with (String.length m' - 1)].
  destruct (match_at_sound _ _ _ E) as (L & rest & ->).
  auto using occurs_in_prefix.
Qed.

Lemma finditer_sound (r : regex) (s m : string) :
  In m (finditer r s) -> lang r m /\ occurs_in m s.
Proof. apply finditer_from_sound. Qed.

(** The strings [EMAIL_RE] matches, spelled out. *)
Lemma lang_lit (a : ascii) (w : string) :
  lang (Set_ (lit a)) w <-> w = String a "".
Proof.
  simpl. unfold lit. split.
  - intros (c & -> & H). now apply Ascii.eqb_eq in H as ->.
  - intros ->. exists a. now rewrite Ascii.eqb_refl.
Qed.

Lemma lang_EMAIL_RE (w : string) :
  lang EMAIL_RE w <->
  exists loc dom tld,
    w = loc ++ "@" ++ dom ++ "." ++ tld /\
    1 <= String.length loc /\ string_forall local_char loc = true /\
    1 <= String.length dom /\ string_forall domain_char dom = true /\
    2 <= String.length tld /\ string_forall letter tld = true.
Proof.
  unfold EMAIL_RE, plus. split.
  - intros (loc & w1 & -> & [Hl1 Hl2] & at_ & w2 & -> & Hat & dom & w3 & -> &
            [Hd1 Hd2] & dot & tld & -> & Hdot & [Ht1 Ht2]).
    apply lang_lit in Hat, Hdot. subst.
    exists loc, dom, tld. simpl. auto 10.
  - intros (loc & dom & tld & -> & Hl1 & Hl2 & Hd1 & Hd2 & Ht1 & Ht2).
    exists loc, ("@" ++ dom ++ "." ++ tld). repeat split; auto.
    exists "@", (dom ++ "." ++ tld). repeat split; [now apply lang_lit|].
    exists dom, ("." ++ tld). repeat split; auto.
    exists ".", tld. repeat split; auto. now apply lang_lit.
Qed.

End MatcherSound.

(** ** Digits and whitespace *)

Section Digits.

Lemma space_not_decimal (c : ascii) : isspace c = true -> isdecimal c = false.
Proof.
  destruct c as [[] [] [] [] [] [] [] []]; vm_compute; congruence.
Qed.

Lemma length_sub_nondigit (v : string) :
  String.length (sub_set nondigit "" v) = digit_count v.
Proof.
  induction v as [|c v IH]; [reflexivity|].
  cbn [sub_set digit_count].
  change (nondigit c) with (negb (isdecimal c)).
  destruct (isdecimal c); cbn [negb String.append String.length]; now rewrite IH.
Qed.

Lemma digit_count_lstrip (s : string) : digit_count (lstrip s) = digit_count s.
Proof.
  induction s as [|c s IH]; simpl; [reflexivity|].
  destruct (isspace c) eqn:E; [|reflexivity].
  now rewrite IH, (space_not_decimal _ E).
Qed.

Lemma digit_count_rstrip (s : string) : digit_count (rstrip s) = digit_count s.
Proof.
  induction s as [|c s IH]; simpl; [reflexivity|].
  destruct (rstrip s) as [|c' r] eqn:E.
  - rewrite <- IH. destruct (isspace c) eqn:Es; simpl; [|reflexivity].
    now rewrite (space_not_decimal _ Es).
  - simpl. now rewrite <- IH.
Qed.

Lemma digit_count_strip (s : string) : digit_count (strip s) = digit_count s.
Proof. unfold strip. now rewrite digit_count_rstrip, digit_count_lstrip. Qed.

Lemma _extract_phones_loop_digits (found : list string) :
  forall phones,
    Forall (fun p => 7 <= digit_count p) phones ->
    Forall (fun p => 7 <= digit_count p) (_extract_phones_loop found phones).
Proof.
  induction found as [|value rest IH]; intros phones H; [assumption|].
  cbn [_extract_phones_loop].
  destruct (Nat.leb 7 (String.length (sub_set nondigit "" value))) eqn:E;
    apply IH; [|assumption].
  apply Forall_app; split; [assumption|].
  constructor; [|constructor].
  rewrite digit_count_strip, <- length_sub_nondigit.
  now apply Nat.leb_le.
Qed.

End Digits.

(* ------------------------------------------------------------------ *)
(** * The text extractors *)

(** C5.  For every text, [_extract_emails] returns a list in ascending
    order without duplicates (the empty list when no piece of the text
    matches) whose every element is a piece of the text that matches the
    e-mail pattern, and [_extract_phones] returns a list in ascending
    order without duplicates whose every element has seven decimal
    digits or more, separators not counted. *)
Theorem extractors_sorted_unique_wellformed (text : string) :
  (ascending (_extract_emails text) /\
   NoDup (_extract_emails text) /\
   Forall (fun m => lang EMAIL_RE m /\ occurs_in m text) (_extract_emails text) /\
   ((forall w, occurs_in w text -> ~ lang EMAIL_RE w) -> _extract_emails text = []))
  /\
  (ascending (_extract_phones text) /\
   NoDup (_extract_phones text) /\
   Forall (fun p => 7 <= digit_count p) (_extract_phones text)).
Proof.
  assert (Hm : Forall (fun m => lang EMAIL_RE m /\ occurs_in m text)
                      (_extract_emails text)).
  { apply Forall_forall. intros m Hin.
    unfold _extract_emails in Hin. rewrite sorted_set_In in Hin.
    apply finditer_sound, Hin. }
  repeat split.
  - apply sorted_set_ascending.
  - apply ascending_NoDup, sorted_set_ascending.
  - exact Hm.
  - intros Hnone. destruct (_extract_emails text) as [|m l]; [reflexivity|].
    inversion Hm as [|? ? [L O] _]; subst. destruct (Hnone m O L).
  - apply sorted_set_ascending.
  - apply ascending_NoDup, sorted_set_ascending.
  - apply Forall_forall. intros p Hin.
    unfold _extract_phones in Hin. rewrite sorted_set_In in Hin.
    pose proof (_extract_phones_loop_digits (finditer PHONE_RE text) []
                                            (Forall_nil _)) as H.
    rewrite Forall_forall in H. apply H, Hin.
Qed.

(* ------------------------------------------------------------------ *)
(** * Directory enrichment *)

Section Enrichment.

Lemma join_nonempty (sep x : string) (l : list string) :
  x <> "" -> join sep (x :: l) <> "".
Proof.
  intros Hx. unfold join. cbn [String.concat].
  destruct l; [assumption|]. destruct x; [congruence | discriminate].
Qed.

Lemma _extract_emails_nonempty (text m : string) :
  In m (_extract_emails text) -> m <> "".
Proof.
  intros H. unfold _extract_emails in H. rewrite sorted_set_In in H.
  apply finditer_sound in H as [H _].
  apply lang_EMAIL_RE in H as (loc & dom & tld & -> & Hl & _).
  destruct loc; [simpl in Hl; lia | discriminate].
Qed.

Lemma _extract_phones_nonempty (text p : string) :
  In p (_extract_phones text) -> p <> "".
Proof.
  intros H. unfold _extract_phones in H. rewrite sorted_set_In in H.
  pose proof (_extract_phones_loop_digits (finditer PHONE_RE text) []
                                          (Forall_nil _)) as Hd.
  rewrite Forall_forall in Hd. specialize (Hd _ H).
  destruct p; [simpl in Hd; lia | discriminate].
Qed.

Lemma truthy_joined (l : list string) :
  (forall m, In m l -> m <> "") -> l <> [] ->
  truthy_opt (Some (join ", " l)) = true.
Proof.
  intros H Hl. destruct l as [|x l]; [congruence|].
  cbn [truthy_opt]. apply truthy_true, join_nonempty, H. now left.
Qed.

Lemma nonempty_true {A} (l : list A) : l <> [] -> nonempty l = true.
Proof. destruct l; [congruence | reflexivity]. Qed.

Lemma set_email_same (r : SupplierRecord) : set_email r (email r) = r.
Proof. now destruct r. Qed.

Lemma set_contact_number_same (r : SupplierRecord) :
  set_contact_number r (contact_number r) = r.
Proof. now destruct r. Qed.

(** The two fields of the enriched record, and the rest of it. *)
Lemma enrich_email (r : SupplierRecord) (t : string) :
  email (enrich_record_from_directory r t) =
  if nonempty (_extract_emails t) && negb (truthy_opt (email r))
  then Some (join ", " (_extract_emails t)) else email r.
Proof.
  unfold enrich_record_from_directory.
  destruct (nonempty (_extract_emails t) && negb (truthy_opt (email r)));
    destruct (nonempty (_extract_phones t) && negb (truthy_opt _));
    reflexivity.
Qed.

Lemma enrich_contact_number (r : SupplierRecord) (t : string) :
  contact_number (enrich_record_from_directory r t) =
  if nonempty (_extract_phones t) && negb (truthy_opt (contact_number r))
  then Some (join ", " (_extract_phones t)) else contact_number r.
Proof.
  unfold enrich_record_from_directory.
  destruct (nonempty (_extract_emails t) && negb (truthy_opt (email r)));
    cbn [set_email contact_number];
    destruct (nonempty (_extract_phones t) && negb (truthy_opt _));
    reflexivity.
Qed.

Lemma enrich_shape (r : SupplierRecord) (t : string) :
  enrich_record_from_directory r t =
  set_contact_number
    (set_email r (email (enrich_record_from_directory r t)))
    (contact_number (enrich_record_from_directory r t)).
Proof.
  rewrite enrich_email, enrich_contact_number.
  unfold enrich_record_from_directory.
  destruct (nonempty (_extract_emails t) && negb (truthy_opt (email r)));
    cbn [set_email contact_number];
    destruct (nonempty (_extract_phones t) && negb (truthy_opt _));
    now destruct r.
Qed.

Lemma enrich_email_twice (r : SupplierRecord) (t : string) :
  email (enrich_record_from_directory (enrich_record_from_directory r t) t) =
  email (enrich_record_from_directory r t).
Proof.
  rewrite (enrich_email (enrich_record_from_directory r t)).
  rewrite (enrich_email r).
  destruct (nonempty (_extract_emails t)); [|reflexivity].
  destruct (truthy_opt (email r)) eqn:Te; cbn [andb negb].
  - now rewrite Te.
  - now destruct (truthy_opt (Some (join ", " (_extract_emails t)))).
Qed.

Lemma enrich_contact_number_twice (r : SupplierRecord) (t : string) :
  contact_number
    (enrich_record_from_directory (enrich_record_from_directory r t) t) =
  contact_number (enrich_record_from_directory r t).
Proof.
  rewrite (enrich_contact_number (enrich_record_from_directory r t)).
  rewrite (enrich_contact_number r).
  destruct (nonempty (_extract_phones t)); [|reflexivity].
  destruct (truthy_opt (contact_number r)) eqn:Tp; cbn [andb negb].
  - now rewrite Tp.
  - now destruct (truthy_opt (Some (join ", " (_extract_phones t)))).
Qed.

End Enrichment.

(** C6.  For every record and every directory text,
    [enrich_record_from_directory] fills the e-mail, when it is absent
    ([None] or empty) and the text has an e-mail match, with the matches
    of the text joined by [", "], which is then present; it does the same
    for the contact number with the phone matches; it keeps an e-mail and
    a contact number that are present; it changes a field in no other
    case and changes no other field; it gives the same record when
    applied a second time with the same text; and it leaves the record as
    it is when the text has no e-mail and no phone match. *)
Theorem enrich_fills_absent_fields_only (record : SupplierRecord)
        (directory_text : string) :
  let enriched := enrich_record_from_directory record directory_text in
  (truthy_opt (email record) = false ->
   _extract_emails directory_text <> [] ->
   email enriched = Some (join ", " (_extract_emails directory_text)) /\
   truthy_opt (email enriched) = true) /\
  (truthy_opt (contact_number record) = false ->
   _extract_phones directory_text <> [] ->
   contact_number enriched = Some (join ", " (_extract_phones directory_text)) /\
   truthy_opt (contact_number enriched) = true) /\
  (truthy_opt (email record) = true -> email enriched = email record) /\
  (truthy_opt (contact_number record) = true ->
   contact_number enriched = contact_number record) /\
  (email enriched <> email record ->
   truthy_opt (email record) = false /\
   _extract_emails directory_text <> [] /\
   email enriched = Some (join ", " (_extract_emails directory_text))) /\
  (contact_number enriched <> contact_number record ->
   truthy_opt (contact_number record) = false /\
   _extract_phones directory_text <> [] /\
   contact_number enriched = Some (join ", " (_extract_phones directory_text))) /\
  enriched =
    set_contact_number (set_email record (email enriched))
                       (contact_number enriched) /\
  enrich_record_from_directory enriched directory_text = enriched /\
  (_extract_emails directory_text = [] ->
   _extract_phones directory_text = [] -> enriched = record).
Proof.
  intros enriched.
  pose proof (enrich_email record directory_text) as He.
  pose proof (enrich_contact_number record directory_text) as Hc.
  pose proof (enrich_shape record directory_text) as Hs.
  fold enriched in He, Hc, Hs.
  assert (Hkeep_e : truthy_opt (email record) = true ->
                    email enriched = email record).
  { intros Ht. rewrite He, Ht. now rewrite andb_false_r. }
  assert (Hkeep_c : truthy_opt (contact_number record) = true ->
                    contact_number enriched = contact_number record).
  { intros Ht. rewrite Hc, Ht. now rewrite andb_false_r. }
  split.
  { intros Ht Hm. rewrite He, Ht, (nonempty_true _ Hm). cbn [andb negb].
    split; [reflexivity|].
    apply truthy_joined; [|assumption].
    intros m. apply _extract_emails_nonempty. }
  split.
  { intros Ht Hm. rewrite Hc, Ht, (nonempty_true _ Hm). cbn [andb negb].
    split; [reflexivity|].
    apply truthy_joined; [|assumption].
    intros m. apply _extract_phones_nonempty. }
  split; [exact Hkeep_e|]. split; [exact Hkeep_c|].
  split; [|split; [|split; [|split]]].
  - intros Hne.
    destruct (truthy_opt (email record)) eqn:Te;
      [now destruct Hne; apply Hkeep_e|].
    destruct (_extract_emails directory_text) eqn:Ee;
      [now destruct Hne; rewrite He|].
    rewrite He. repeat split. discriminate.
  - intros Hne.
    destruct (truthy_opt (contact_number record)) eqn:Tp;
      [now destruct Hne; apply Hkeep_c|].
    destruct (_extract_phones directory_text) eqn:Ep;
      [now destruct Hne; rewrite Hc|].
    rewrite Hc. repeat split. discriminate.
  - exact Hs.
  - rewrite (enrich_shape enriched directory_text).
    unfold enriched.
    rewrite enrich_email_twice, enrich_contact_number_twice.
    now rewrite set_email_same, set_contact_number_same.
  - intros Ee Ep. rewrite Hs, He, Hc, Ee, Ep. simpl.
    now rewrite set_email_same, set_contact_number_same.
Qed.

(* ------------------------------------------------------------------ *)
(** * Requests and traces *)

Section Runs.

Context {env : Environment}.

Lemma requests_sent_app (tr1 tr2 : list event) :
  requests_sent (tr1 ++ tr2) = requests_sent tr1 + requests_sent tr2.
Proof. unfold requests_sent. now rewrite filter_app, length_app. Qed.

Lemma requests_sent_repeat (n : nat) :
  requests_sent (repeat (Request "") n) = n.
Proof. induction n as [|n IH]; [reflexivity|]. unfold requests_sent in *. simpl. now rewrite IH. Qed.

(** [_get_html] sends one request, and its outcome depends on the trace
    only through the number of requests sent before. *)
Lemma _get_html_trace (api_key url cc : string) (tr : list event) :
  snd (_get_html api_key url cc tr) = tr ++ [Request (_scraperapi_url api_key url cc)].
Proof.
  unfold _get_html, bind, session_get, raise_for_status.
  destruct (network _ _) as [r|msg]; [|reflexivity].
  destruct ((400 <=? status_code r)%Z && (status_code r <? 500)%Z); [reflexivity|].
  destruct ((500 <=? status_code r)%Z && (status_code r <? 600)%Z); reflexivity.
Qed.

Lemma _get_html_by_count (api_key url cc : string) (tr1 tr2 : list event) :
  requests_sent tr1 = requests_sent tr2 ->
  fst (_get_html api_key url cc tr1) = fst (_get_html api_key url cc tr2).
Proof.
  intros E. unfold _get_html, bind, session_get, raise_for_status. rewrite E.
  destruct (network _ _) as [r|msg]; [|reflexivity].
  destruct ((400 <=? status_code r)%Z && (status_code r <? 500)%Z); [reflexivity|].
  destruct ((500 <=? status_code r)%Z && (status_code r <? 600)%Z); reflexivity.
Qed.

Lemma _get_html_as_request (api_key url cc : string) (tr : list event) :
  fst (_get_html api_key url cc tr) =
  fetch_as_request (requests_sent tr) api_key url cc.
Proof.
  unfold fetch_as_request. apply _get_html_by_count.
  now rewrite requests_sent_repeat.
Qed.

Lemma _get_html_run (api_key url cc : string) (tr : list event) :
  _get_html api_key url cc tr =
  (fetch_as_request (requests_sent tr) api_key url cc,
   tr ++ [Request (_scraperapi_url api_key url cc)]).
Proof.
  rewrite <- _get_html_as_request, <- _get_html_trace.
  now destruct (_get_html api_key url cc tr).
Qed.

Lemma google_search_run (api_key query cc : string) (n : Z) (tr : list event) :
  google_search api_key query cc n tr =
  (match fetch_as_request (requests_sent tr) api_key (search_url_of query n) cc with
   | Returns html =>
       Returns (dict_fromkeys
                  (google_search_loop (soup_select_a (BeautifulSoup html)) n []))
   | Raises e => Raises e
   end,
   tr ++ [Request (_scraperapi_url api_key (search_url_of query n) cc)]).
Proof.
  unfold google_search, bind. rewrite _get_html_run.
  now destruct (fetch_as_request _ _ _ _).
Qed.

Lemma scrape_supplier_page_run (api_key url country region cc : string)
      (tr : list event) :
  scrape_supplier_page api_key url country region cc tr =
  (match fetch_as_request (requests_sent tr) api_key url cc with
   | Returns html => page_record url html country region
   | Raises e => Raises e
   end,
   tr ++ [Request (_scraperapi_url api_key url cc)]).
Proof.
  unfold scrape_supplier_page, bind, lift. rewrite _get_html_run.
  destruct (fetch_as_request _ _ _ _) as [html|e]; [|reflexivity].
  now destruct (page_record url html country region).
Qed.

(** [_get_html] raises request exceptions only. *)
Lemma fetch_as_request_raises (sent : nat) (api_key url cc : string) (exc : exn) :
  fetch_as_request sent api_key url cc = Raises exc ->
  is_RequestException exc = true.
Proof.
  unfold fetch_as_request, _get_html, bind, session_get, raise_for_status,
    raise, ret.
  destruct (network _ _) as [r|msg]; cbn [fst]; [|now intros [= <-]].
  destruct ((400 <=? status_code r)%Z && (status_code r <? 500)%Z);
    [now intros [= <-]|].
  destruct ((500 <=? status_code r)%Z && (status_code r <? 600)%Z);
    [now intros [= <-] | discriminate].
Qed.

End Runs.

(* ------------------------------------------------------------------ *)
(** * Keys of a dictionary *)

Section DictKeys.

Lemma existsb_eqb_In (k : string) (d : list string) :
  existsb (String.eqb k) d = true <-> In k d.
Proof.
  rewrite existsb_exists. split.
  - intros (x & Hin & E). now apply String.eqb_eq in E as ->.
  - intros Hin. exists k. now rewrite String.eqb_refl.
Qed.

Lemma first_index_lt (x : string) (l : list string) :
  In x l -> first_index x l < List.length l.
Proof.
  induction l as [|y l IH]; simpl; [contradiction|].
  intros H. destruct (String.eqb_spec x y) as [->|N]; [lia|].
  destruct H as [E|H]; [congruence|]. specialize (IH H). lia.
Qed.

Lemma first_index_app (x : string) (l l' : list string) :
  In x l -> first_index x (l ++ l') = first_index x l.
Proof.
  induction l as [|y l IH]; simpl; [contradiction|].
  intros H. destruct (String.eqb_spec x y) as [->|N]; [reflexivity|].
  destruct H as [E|H]; [congruence|]. now rewrite IH.
Qed.

Lemma first_index_fresh (x : string) (l l' : list string) :
  ~ In x l -> first_index x (l ++ x :: l') = List.length l.
Proof.
  induction l as [|y l IH]; simpl; intros H.
  - now rewrite String.eqb_refl.
  - destruct (String.eqb_spec x y) as [->|N]; [tauto|].
    rewrite IH; tauto.
Qed.

Lemma keys_of_insert (d pre : list string) (k : string) :
  keys_of d pre -> keys_of (dict_insert_key d k) (pre ++ [k]).
Proof.
  intros (Hnd & Hiff & Hord). unfold dict_insert_key.
  destruct (existsb (String.eqb k) d) eqn:E.
  - apply existsb_eqb_In in E. repeat split.
    + assumption.
    + intros H. apply in_or_app. left. now apply Hiff.
    + intros H. apply in_app_or in H as [H|[<-|[]]]; [now apply Hiff | assumption].
    + intros i j x y Hx Hy Hij.
      rewrite !first_index_app;
        [now apply Hord with i j | |];
        apply Hiff; eapply nth_error_In; eassumption.
  - assert (Hk : ~ In k d).
    { intros H. apply existsb_eqb_In in H. congruence. }
    assert (Hk' : ~ In k pre) by (intros H; now apply Hk, Hiff).
    repeat split.
    + apply NoDup_app; repeat split; [assumption | repeat constructor; intros [] |].
      intros x Hx [<-|[]]. contradiction.
    + intros H. apply in_app_or in H as [H|H]; apply in_or_app;
        [left; now apply Hiff | now right].
    + intros H. apply in_app_or in H as [H|H]; apply in_or_app;
        [left; now apply Hiff | now right].
    + intros i j x y Hx Hy Hij.
      assert (Hi : i < List.length d).
      { assert (Hj : j < List.length (d ++ [k]))
          by (apply nth_error_Some; congruence).
        rewrite length_app in Hj. simpl in Hj. lia. }
      rewrite nth_error_app1 in Hx by assumption.
      assert (Hxp : In x pre) by (apply Hiff; eapply nth_error_In; eassumption).
      rewrite (first_index_app x pre [k] Hxp).
      destruct (Nat.lt_ge_cases j (List.length d)) as [Hj|Hj].
      * rewrite nth_error_app1 in Hy by assumption.
        rewrite first_index_app;
          [now apply Hord with i j | apply Hiff; eapply nth_error_In; eassumption].
      * rewrite nth_error_app2 in Hy by assumption.
        destruct (j - List.length d) as [|m]; simpl in Hy;
          [|destruct m; discriminate].
        injection Hy as <-.
        rewrite first_index_fresh by assumption.
        now apply first_index_lt.
Qed.

Lemma keys_of_fold (l : list string) :
  forall d pre, keys_of d pre -> keys_of (fold_left dict_insert_key l d) (pre ++ l).
Proof.
  induction l as [|k l IH]; intros d pre H; simpl.
  - now rewrite app_nil_r.
  - change (k :: l) with ([k] ++ l). rewrite app_assoc.
    apply IH, keys_of_insert, H.
Qed.

Lemma dict_fromkeys_keys (l : list string) : keys_of (dict_fromkeys l) l.
Proof.
  apply (keys_of_fold l [] []). repeat split; try constructor; try tauto.
  intros i j x y Hx. now destruct i.
Qed.

Lemma dict_fromkeys_length (l : list string) :
  List.length (dict_fromkeys l) <= List.length l.
Proof.
  destruct (dict_fromkeys_keys l) as (Hnd & Hiff & _).
  apply NoDup_incl_length; [assumption|]. intros x. apply Hiff.
Qed.

End DictKeys.

(* ------------------------------------------------------------------ *)
(** * The links of a result listing *)

Section Links.

Lemma google_search_loop_step (result : Tag) (rest : list Tag) (n : Z)
      (links : list string) :
  google_search_loop (result :: rest) n links =
  let links' :=
    match outbound_link result with
    | Some link => links ++ [link]
    | None => links
    end in
  if (len links' >=? n)%Z then links' else google_search_loop rest n links'.
Proof.
  cbn [google_search_loop]. unfold outbound_link.
  destruct (startswith _ _); [|reflexivity].
  destruct (truthy _ && negb _); reflexivity.
Qed.

(** While the list is shorter than the count, the loop appends the
    outbound links of the anchors until the count is reached. *)
Lemma google_search_loop_cap (n : nat) (results : list Tag) :
  forall links,
    List.length links < n ->
    google_search_loop results (Z.of_nat n) links =
    links ++ firstn (n - List.length links) (outbound_links results).
Proof.
  induction results as [|result rest IH]; intros links Hlen.
  - simpl. now rewrite firstn_nil, app_nil_r.
  - rewrite google_search_loop_step. cbn [outbound_links].
    destruct (outbound_link result) as [link|]; cbv zeta.
    + unfold len. rewrite length_app. cbn [List.length].
      destruct (Z.geb_spec (Z.of_nat (List.length links + 1)) (Z.of_nat n)) as [G|L].
      * replace (n - List.length links) with 1 by lia. reflexivity.
      * rewrite IH by (rewrite length_app; simpl; lia).
        rewrite length_app. cbn [List.length].
        replace (n - List.length links) with (S (n - (List.length links + 1))) by lia.
        now rewrite <- app_assoc.
    + unfold len.
      destruct (Z.geb_spec (Z.of_nat (List.length links)) (Z.of_nat n)) as [G|L];
        [lia | now apply IH].
Qed.

(** For any count, the loop returns a prefix of the outbound links of the
    listing: as many as the count when the count is positive, one at most
    otherwise. *)
Lemma google_search_loop_prefix (results : list Tag) (n : Z) :
  exists k,
    google_search_loop results n [] = firstn k (outbound_links results) /\
    ((1 <= n)%Z -> k = Z.to_nat n) /\ (k <= Z.to_nat (Z.max 1 n)).
Proof.
  destruct (Z.le_gt_cases 1 n) as [Hn|Hn].
  - exists (Z.to_nat n). repeat split; [|lia].
    rewrite <- (Z2Nat.id n) at 1 by lia.
    rewrite google_search_loop_cap by (simpl; lia).
    simpl. now rewrite Nat.sub_0_r.
  - destruct results as [|result rest].
    + exists 0. repeat split; [lia | lia].
    + rewrite google_search_loop_step. cbn [outbound_links].
      destruct (outbound_link result) as [link|]; cbv zeta.
      * exists 1. unfold len. simpl.
        destruct (Z.geb_spec 1 n); [|lia]. repeat split; lia.
      * exists 0. unfold len. simpl.
        destruct (Z.geb_spec 0 n); [|lia]. repeat split; lia.
Qed.

Lemma outbound_link_eligible (result : Tag) (link : string) :
  outbound_link result = Some link ->
  link <> "" /\ contains "google.com" link = false.
Proof.
  unfold outbound_link.
  destruct (startswith _ _); [|discriminate].
  destruct (truthy _ && negb _) eqn:E; [|discriminate].
  intros [= <-]. apply andb_true_iff in E as [T C].
  split; [now apply truthy_true | now apply negb_true_iff].
Qed.

Lemma outbound_links_eligible (results : list Tag) :
  Forall (fun link => link <> "" /\ contains "google.com" link = false)
         (outbound_links results).
Proof.
  induction results as [|result rest IH]; simpl; [constructor|].
  destruct (outbound_link result) as [link|] eqn:E; [|assumption].
  constructor; [now apply outbound_link_eligible with result | assumption].
Qed.

Lemma In_firstn (x : string) (k : nat) (l : list string) :
  In x (firstn k l) -> In x l.
Proof.
  intros H. rewrite <- (firstn_skipn k l). apply in_or_app. now left.
Qed.

Lemma first_seen_order_firstn (d : list string) (k : nat) (l : list string) :
  (forall x, In x d -> In x (firstn k l)) ->
  first_seen_order d (firstn k l) -> first_seen_order d l.
Proof.
  intros Hin Hord i j x y Hx Hy Hij.
  rewrite <- (firstn_skipn k l).
  rewrite !first_index_app;
    [now apply Hord with i j | |];
    apply Hin; eapply nth_error_In; eassumption.
Qed.

End Links.

(** What holds of the links [google_search] returns, for every listing,
    query and count: no link twice, the links in the order in which the
    listing first shows them, none empty and none with ["google.com"] in
    it, and, for a count of one or more, no more links than the count. *)
Lemma google_search_links {env : Environment} (api_key query cc : string)
      (n : Z) (tr tr' : list event) (links : list string) :
  google_search api_key query cc n tr = (Returns links, tr') ->
  exists html,
    fetch_as_request (requests_sent tr) api_key (search_url_of query n) cc
      = Returns html /\
    NoDup links /\
    first_seen_order links (outbound_links (soup_select_a (BeautifulSoup html))) /\
    Forall (fun link => link <> "" /\ contains "google.com" link = false) links /\
    ((1 <= n)%Z -> (len links <= n)%Z) /\
    (len links <= Z.max 1 n)%Z.
Proof.
  rewrite google_search_run.
  destruct (fetch_as_request _ _ _ _) as [html|e]; [|discriminate].
  intros [= <- _]. exists html. split; [reflexivity|].
  destruct (google_search_loop_prefix (soup_select_a (BeautifulSoup html)) n)
    as (k & -> & Hk & Hk').
  destruct (dict_fromkeys_keys (firstn k (outbound_links (soup_select_a (BeautifulSoup html)))))
    as (Hnd & Hiff & Hord).
  pose proof (dict_fromkeys_length
                (firstn k (outbound_links (soup_select_a (BeautifulSoup html))))) as Hlen.
  rewrite length_firstn in Hlen.
  repeat split.
  - assumption.
  - apply first_seen_order_firstn with k; [apply Hiff | assumption].
  - apply Forall_forall. intros x Hx.
    pose proof (outbound_links_eligible (soup_select_a (BeautifulSoup html))) as He.
    rewrite Forall_forall in He. apply He.
    apply In_firstn with k. now apply Hiff.
  - intros Hn. specialize (Hk Hn). unfold len. lia.
  - unfold len. lia.
Qed.

(** C8 at a count of zero.  The listing has one anchor, which carries an
    outbound link; asked for zero results, [google_search] returns that
    link: the length test of the loop comes after the link is appended. *)
Theorem google_search_count_zero_returns_one_link :
  fst (google_search (env := canned ["/url?q=http://a.example/&sa=U"])
                     "KEY" "acme suppliers" "cn" 0 [])
  = Returns ["http://a.example/"].
Proof. vm_compute. reflexivity. Qed.

(** C10.  For a count of one or more, [google_search] returns the keys of
    a dictionary filled from the first [num_results] outbound links of the
    listing: the count cuts the list of extracted links and duplicates go
    afterwards.  So there is a listing with [num_results] different
    outbound links for which fewer than [num_results] links come back. *)
Theorem google_search_caps_before_deduplication :
  (forall (env : Environment) (api_key query cc : string) (n : Z)
          (tr : list event) (html : string),
      (1 <= n)%Z ->
      fetch_as_request (requests_sent tr) api_key (search_url_of query n) cc
        = Returns html ->
      fst (google_search api_key query cc n tr) =
      Returns (dict_fromkeys
                 (firstn (Z.to_nat n)
                         (outbound_links (soup_select_a (BeautifulSoup html))))))
  /\
  exists (results : list Tag) (n : Z),
    (n <= len (dict_fromkeys (outbound_links results)))%Z /\
    forall (env : Environment) (api_key query cc : string)
           (tr : list event) (html : string),
      fetch_as_request (requests_sent tr) api_key (search_url_of query n) cc
        = Returns html ->
      soup_select_a (BeautifulSoup html) = results ->
      exists links,
        fst (google_search api_key query cc n tr) = Returns links /\
        (len links < n)%Z.
Proof.
  assert (Hcap : forall (env : Environment) api_key query cc n tr html,
             (1 <= n)%Z ->
             fetch_as_request (requests_sent tr) api_key (search_url_of query n) cc
               = Returns html ->
             fst (google_search api_key query cc n tr) =
             Returns (dict_fromkeys
                        (firstn (Z.to_nat n)
                                (outbound_links (soup_select_a (BeautifulSoup html)))))).
  { intros env api_key query cc n tr html Hn Hf.
    rewrite google_search_run, Hf. cbn [fst].
    destruct (google_search_loop_prefix (soup_select_a (BeautifulSoup html)) n)
      as (k & -> & Hk & _).
    now rewrite (Hk Hn). }
  split; [exact Hcap|].
  exists (map anchor ["/url?q=http://a.example/&sa=U";
                      "/url?q=http://a.example/&sa=U";
                      "/url?q=http://b.example/&sa=U"]), 2%Z.
  split; [vm_compute; discriminate|].
  intros env api_key query cc tr html Hf Hs.
  rewrite (Hcap env api_key query cc 2%Z tr html) by (assumption || lia).
  rewrite Hs. eexists. split; [reflexivity|]. vm_compute. reflexivity.
Qed.

(* ------------------------------------------------------------------ *)
(* ------------------------------------------------------------------ *)
(** * The batch loop *)

Section Batch.

Context {env : Environment}.

Variables api_key country region cc : string.
Variable delay_s : duration.

Lemma sleep_error_not_caught (d : duration) (e : exn) :
  sleep_error d = Some e -> is_RequestException e = false.
Proof. destruct d; cbn; intros [= <-]; reflexivity. Qed.

Lemma urlparse_netloc_text (url n : string) :
  urlparse_netloc url = Returns n -> n = Urllib.netloc_text url.
Proof.
  unfold urlparse_netloc, Urllib.netloc.
  destruct (xorb _ _); [discriminate|].
  destruct (_ && _); [destruct (check_bracketed_netloc _); [discriminate|]|];
    now intros [= <-].
Qed.

Lemma urlparse_netloc_not_caught (url : string) (e : exn) :
  urlparse_netloc url = Raises e -> is_RequestException e = false.
Proof.
  unfold urlparse_netloc.
  destruct (Urllib.netloc _ _); [discriminate | now intros [= <-]].
Qed.

(** What [page_record] returns, and what it raises. *)
Lemma page_record_returns (url html : string) (p : SupplierRecord) :
  page_record url html country region = Returns p ->
  ((_best_title (BeautifulSoup html) <> "" /\
    name p = _best_title (BeautifulSoup html)) \/
   (_best_title (BeautifulSoup html) = "" /\
    urlparse_netloc url = Returns (name p))) /\
  p = new_record 0 (name p) (or_None (_page_summary (BeautifulSoup html)))
                 (Some url) (Some country) (Some region)
                 (if nonempty (_extract_phones (soup_get_text (BeautifulSoup html)))
                  then Some (join ", " (_extract_phones
                                          (soup_get_text (BeautifulSoup html))))
                  else None)
                 (if nonempty (_extract_emails (soup_get_text (BeautifulSoup html)))
                  then Some (join ", " (_extract_emails
                                          (soup_get_text (BeautifulSoup html))))
                  else None)
                 [url] None.
Proof.
  unfold page_record. cbv zeta.
  destruct (truthy (_best_title (BeautifulSoup html))) eqn:T.
  - intros [= <-]. cbn [new_record name]. split; [|reflexivity].
    left. split; [now apply truthy_true | reflexivity].
  - destruct (urlparse_netloc url) as [n|e] eqn:U; [|discriminate].
    intros [= <-]. cbn [new_record name]. split; [|reflexivity].
    right. split; [now apply truthy_false | reflexivity].
Qed.

Lemma page_record_not_caught (url html : string) (e : exn) :
  page_record url html country region = Raises e ->
  is_RequestException e = false.
Proof.
  unfold page_record. cbv zeta.
  destruct (truthy _); [discriminate|].
  destruct (urlparse_netloc url) as [n|e'] eqn:U; [discriminate|].
  intros [= <-]. now apply urlparse_netloc_not_caught with url.
Qed.

Lemma page_record_total (url html : string) :
  _best_title (BeautifulSoup html) <> "" \/ urlparse_accepts url ->
  exists p, page_record url html country region = Returns p.
Proof.
  unfold page_record. cbv zeta. intros [H|(n & H)].
  - apply truthy_true in H. rewrite H. eauto.
  - rewrite H. destruct (truthy _); eauto.
Qed.

Lemma failure_record_returns (idx : Z) (url : string) (exc : exn)
      (r : SupplierRecord) :
  failure_record idx url country region exc = Returns r ->
  urlparse_netloc url = Returns (name r) /\
  r = new_record idx (name r) None (Some url) (Some country) (Some region)
                 None None [url]
                 (Some ("Failed to fetch page: " ++ str_of_exn exc)%string).
Proof.
  unfold failure_record.
  destruct (urlparse_netloc url) as [n|e]; [|discriminate].
  intros [= <-]. split; reflexivity.
Qed.

Lemma failure_record_not_caught (idx : Z) (url : string) (exc e : exn) :
  failure_record idx url country region exc = Raises e ->
  is_RequestException e = false.
Proof.
  unfold failure_record.
  destruct (urlparse_netloc url) as [n|e'] eqn:U; [discriminate|].
  intros [= <-]. now apply urlparse_netloc_not_caught with url.
Qed.

(** A turn of the loop that returns a record: the page was fetched, its
    record built and the pause made, or the fetch raised and the
    placeholder was built. *)
Lemma attempt_returns (url : string) (idx : Z) (sent : nat) (r : SupplierRecord) :
  fst (attempt api_key country region cc delay_s url idx sent) = Returns r ->
  (exists html p,
      fetch_as_request sent api_key url cc = Returns html /\
      page_record url html country region = Returns p /\
      r = set_serial_number p idx /\
      sleep_error delay_s = None /\
      snd (attempt api_key country region cc delay_s url idx sent) =
      [Request (_scraperapi_url api_key url cc); Sleep delay_s])
  \/
  (exists exc,
      fetch_as_request sent api_key url cc = Raises exc /\
      failure_record idx url country region exc = Returns r /\
      snd (attempt api_key country region cc delay_s url idx sent) =
      [Request (_scraperapi_url api_key url cc)]).
Proof.
  unfold attempt.
  destruct (fetch_as_request sent api_key url cc) as [html|exc] eqn:F.
  - destruct (page_record url html country region) as [p|e] eqn:P;
      [|discriminate].
    destruct (sleep_error delay_s) as [e|] eqn:Hsl; [discriminate|].
    cbn [fst snd]. intros [= <-]. left. exists html, p. auto.
  - destruct (is_RequestException exc); [|discriminate].
    cbn [fst snd]. intros H. right. exists exc. auto.
Qed.

Lemma attempt_total (url : string) (idx : Z) (sent : nat) :
  urlparse_accepts url -> sleep_error delay_s = None ->
  exists r, fst (attempt api_key country region cc delay_s url idx sent) = Returns r.
Proof.
  intros Hu Hs. unfold attempt.
  destruct (fetch_as_request sent api_key url cc) as [html|exc] eqn:F.
  - destruct (page_record_total url html (or_intror Hu)) as (p & ->).
    rewrite Hs. cbn [fst]. eauto.
  - rewrite (fetch_as_request_raises _ _ _ _ _ F).
    destruct Hu as (n & Hu). unfold failure_record. rewrite Hu.
    cbn [fst]. eauto.
Qed.

Lemma attempt_requests (url : string) (idx : Z) (sent : nat) :
  filter is_request (snd (attempt api_key country region cc delay_s url idx sent))
  = [Request (_scraperapi_url api_key url cc)].
Proof.
  unfold attempt.
  destruct (fetch_as_request sent api_key url cc) as [html|exc].
  - destruct (page_record url html country region); [|reflexivity].
    destruct (sleep_error delay_s); reflexivity.
  - destruct (is_RequestException exc); reflexivity.
Qed.

Lemma build_records_loop_run (links : list string) :
  forall (idx : Z) (records : list SupplierRecord) (tr : list event),
    build_records_loop api_key country region cc delay_s links idx records tr =
    (match fst (attempts api_key country region cc delay_s links idx
                         (requests_sent tr)) with
     | Returns out => Returns (records ++ out)
     | Raises e => Raises e
     end,
     tr ++ snd (attempts api_key country region cc delay_s links idx
                         (requests_sent tr))).
Proof.
  induction links as [|url rest IH]; intros idx records tr.
  - simpl. unfold ret. now rewrite !app_nil_r.
  - cbn [build_records_loop attempts].
    unfold bind at 1, try_except, bind at 1.
    rewrite scrape_supplier_page_run.
    unfold attempt.
    destruct (fetch_as_request (requests_sent tr) api_key url cc)
      as [html|exc] eqn:F.
    + destruct (page_record url html country region) as [p|e] eqn:P.
      * unfold bind, time_sleep, ret.
        destruct (sleep_error delay_s) as [e|] eqn:Hsl.
        -- now rewrite (sleep_error_not_caught _ _ Hsl).
        -- rewrite IH.
           rewrite !requests_sent_app.
           cbn [requests_sent filter is_request List.length].
           rewrite Nat.add_0_r, Nat.add_1_r.
           destruct (attempts api_key country region cc delay_s rest (idx + 1)
                              (S (requests_sent tr))) as [[out|e] ev];
             cbn [fst snd]; now rewrite <- !app_assoc.
      * now rewrite (page_record_not_caught _ _ _ P).
    + destruct (is_RequestException exc); [|reflexivity].
      unfold bind, lift, ret.
      destruct (failure_record idx url country region exc) as [r|e] eqn:R;
        [|reflexivity].
      rewrite IH.
      rewrite !requests_sent_app.
      cbn [requests_sent filter is_request List.length].
      rewrite Nat.add_1_r.
      destruct (attempts api_key country region cc delay_s rest (idx + 1)
                         (S (requests_sent tr))) as [[out|e] ev];
        cbn [fst snd]; now rewrite <- !app_assoc.
Qed.

Lemma build_records_run (query : string) (n : Z) (tr : list event) :
  build_records api_key query country region cc n delay_s tr =
  match google_search api_key query cc n tr with
  | (Returns links, tr1) =>
      (fst (attempts api_key country region cc delay_s links 1
                     (requests_sent tr1)),
       tr1 ++ snd (attempts api_key country region cc delay_s links 1
                            (requests_sent tr1)))
  | (Raises e, tr1) => (Raises e, tr1)
  end.
Proof.
  unfold build_records, bind.
  destruct (google_search api_key query cc n tr) as [[links|e] tr1]; [|reflexivity].
  rewrite build_records_loop_run.
  now destruct (fst (attempts api_key country region cc delay_s links 1
                              (requests_sent tr1))).
Qed.

(** The turns of a loop that returned. *)
Lemma attempts_returns (links : list string) :
  forall (idx : Z) (sent : nat) (out : list SupplierRecord),
    fst (attempts api_key country region cc delay_s links idx sent) = Returns out ->
    List.length out = List.length links /\
    (forall i u,
        nth_error links i = Some u ->
        exists r,
          nth_error out i = Some r /\
          fst (attempt api_key country region cc delay_s u
                       (idx + Z.of_nat i) (sent + i)) = Returns r) /\
    (forall r, In r out ->
               exists u j k,
                 In u links /\
                 fst (attempt api_key country region cc delay_s u j k) = Returns r).
Proof.
  induction links as [|url rest IH]; intros idx sent out H.
  - cbn in H. injection H as <-. split; [reflexivity|].
    split; [intros [|i] u Hu; discriminate | intros r []].
  - cbn [attempts] in H.
    destruct (attempt api_key country region cc delay_s url idx sent)
      as [[r|e] ev] eqn:A; [|discriminate].
    destruct (attempts api_key country region cc delay_s rest (idx + 1) (S sent))
      as [[out'|e] ev'] eqn:R; [|discriminate].
    cbn [fst] in H. injection H as <-.
    destruct (IH (idx + 1)%Z (S sent) out') as (Hlen & Hnth & Hin);
      [now rewrite R|].
    split; [cbn; now rewrite Hlen|]. split.
    + intros [|i] u Hu; cbn in Hu.
      * injection Hu as <-. exists r. split; [reflexivity|].
        now rewrite Z.add_0_r, Nat.add_0_r, A.
      * destruct (Hnth i u Hu) as (r' & Hr' & Ha). exists r'.
        split; [exact Hr'|].
        replace (idx + Z.of_nat (S i))%Z with (idx + 1 + Z.of_nat i)%Z by lia.
        now replace (sent + S i) with (S sent + i) by lia.
    + intros r' [<-|Hr'].
      * exists url, idx, sent. split; [now left | now rewrite A].
      * destruct (Hin r' Hr') as (u & j & k & Hu & Ha).
        exists u, j, k. split; [now right | exact Ha].
Qed.

Lemma attempts_total (links : list string) :
  Forall urlparse_accepts links -> sleep_error delay_s = None ->
  forall (idx : Z) (sent : nat),
  exists out, fst (attempts api_key country region cc delay_s links idx sent)
              = Returns out.
Proof.
  intros Hall Hs. induction Hall as [|url rest Hu _ IH]; intros idx sent.
  - exists []. reflexivity.
  - cbn [attempts].
    destruct (attempt_total url idx sent Hu Hs) as (r & Hr).
    destruct (attempt api_key country region cc delay_s url idx sent)
      as [[r'|e] ev]; [|discriminate].
    destruct (IH (idx + 1)%Z (S sent)) as (out & Hout).
    destruct (attempts api_key country region cc delay_s rest (idx + 1) (S sent))
      as [[out'|e] ev']; [|discriminate].
    cbn [fst]. eauto.
Qed.

Lemma attempts_requests (links : list string) :
  forall (idx : Z) (sent : nat) (out : list SupplierRecord),
    fst (attempts api_key country region cc delay_s links idx sent) = Returns out ->
    filter is_request (snd (attempts api_key country region cc delay_s links idx sent))
    = map (fun u => Request (_scraperapi_url api_key u cc)) links.
Proof.
  induction links as [|url rest IH]; intros idx sent out H; [reflexivity|].
  cbn [attempts] in H |- *.
  pose proof (attempt_requests url idx sent) as Hq.
  destruct (attempt api_key country region cc delay_s url idx sent)
    as [[r|e] ev] eqn:A; [|discriminate].
  specialize (IH (idx + 1)%Z (S sent)).
  destruct (attempts api_key country region cc delay_s rest (idx + 1) (S sent))
    as [[out'|e] ev'] eqn:R; [|discriminate].
  cbn [snd] in *. rewrite filter_app, Hq, (IH out' eq_refl). reflexivity.
Qed.

Lemma attempt_website_serial (url : string) (idx : Z) (sent : nat)
      (r : SupplierRecord) :
  fst (attempt api_key country region cc delay_s url idx sent) = Returns r ->
  website r = Some url /\ serial_number r = idx.
Proof.
  intros H. apply attempt_returns in H.
  destruct H as [(html & p & _ & P & -> & _)|(exc & _ & R & _)].
  - destruct (page_record_returns _ _ _ P) as (_ & ->). split; reflexivity.
  - destruct (failure_record_returns _ _ _ _ R) as (_ & ->). split; reflexivity.
Qed.

Lemma attempts_website (links : list string) :
  forall (idx : Z) (sent : nat) (out : list SupplierRecord),
    fst (attempts api_key country region cc delay_s links idx sent) = Returns out ->
    map website out = map Some links.
Proof.
  induction links as [|url rest IH]; intros idx sent out H.
  - cbn in H. now injection H as <-.
  - cbn [attempts] in H.
    destruct (attempt api_key country region cc delay_s url idx sent)
      as [[r|e] ev] eqn:A; [|discriminate].
    destruct (attempts api_key country region cc delay_s rest (idx + 1) (S sent))
      as [[out'|e] ev'] eqn:R; [|discriminate].
    cbn [fst] in H. injection H as <-. cbn [map].
    destruct (attempt_website_serial url idx sent r) as (-> & _);
      [now rewrite A|].
    f_equal. apply (IH (idx + 1)%Z (S sent)). now rewrite R.
Qed.

Lemma attempts_serial (links : list string) :
  forall (k : nat) (sent : nat) (out : list SupplierRecord),
    fst (attempts api_key country region cc delay_s links (Z.of_nat k) sent)
    = Returns out ->
    map serial_number out = map Z.of_nat (seq k (List.length links)).
Proof.
  induction links as [|url rest IH]; intros k sent out H.
  - cbn in H. now injection H as <-.
  - cbn [attempts] in H.
    destruct (attempt api_key country region cc delay_s url (Z.of_nat k) sent)
      as [[r|e] ev] eqn:A; [|discriminate].
    replace (Z.of_nat k + 1)%Z with (Z.of_nat (S k)) in H by lia.
    destruct (attempts api_key country region cc delay_s rest (Z.of_nat (S k))
                       (S sent))
      as [[out'|e] ev'] eqn:R; [|discriminate].
    cbn [fst] in H. injection H as <-. cbn [map List.length seq].
    destruct (attempt_website_serial url (Z.of_nat k) sent r) as (_ & ->);
      [now rewrite A|].
    f_equal. apply (IH (S k) (S sent)). now rewrite R.
Qed.

End Batch.

Lemma google_search_requests_sent {env : Environment} (api_key query cc : string)
      (n : Z) (tr : list event) :
  requests_sent (snd (google_search api_key query cc n tr)) = S (requests_sent tr).
Proof.
  rewrite google_search_run. cbn [snd].
  rewrite requests_sent_app. cbn. lia.
Qed.

(** C1, as stated, fails.  The search returns one URL, whose network
    location opens a square bracket that nothing closes; its fetch fails,
    [urlparse] raises in the [except] branch and [build_records] ends
    with that exception, without a record.  With the URLs of the
    scenario and a negative delay, [time.sleep] raises after the first
    page. *)
Lemma build_records_aborts_without_records :
  fst (google_search (env := canned bracket_listing)
                     "KEY" "acme suppliers" "cn" 2 [])
    = Returns ["http://[bad/"] /\
  fst (build_records (env := canned bracket_listing)
                     "KEY" "acme suppliers" "China" "Asia" "cn" 2 (Millis 1500) [])
    = Raises (ValueError "Invalid IPv6 URL") /\
  fst (google_search (env := canned acme_listing)
                     "KEY" "acme suppliers" "cn" 2 [])
    = Returns ["http://a.example/"; "http://b.example/"] /\
  fst (build_records (env := canned acme_listing)
                     "KEY" "acme suppliers" "China" "Asia" "cn" 2 Negative [])
    = Raises (ValueError "sleep length must be non-negative").
Proof. vm_compute. repeat split. Qed.

(** C1, amended.  When the search returns a list of URLs that [urlparse]
    accepts, and [time.sleep] accepts the delay or the list is empty,
    [build_records] returns a list with one record for each URL, in the
    order of the URLs (the record at a position has the URL of that
    position as its website), the serial numbers being 1, 2, ... up to
    the number of URLs; when the search returns no URL, [build_records]
    returns the empty list. *)
Theorem build_records_one_record_per_url {env : Environment}
        (api_key query country region cc : string) (n : Z) (delay_s : duration)
        (tr tr1 : list event) (links : list string) :
  google_search api_key query cc n tr = (Returns links, tr1) ->
  Forall urlparse_accepts links ->
  (links <> [] -> sleep_error delay_s = None) ->
  exists records tr2,
    build_records api_key query country region cc n delay_s tr
      = (Returns records, tr2) /\
    List.length records = List.length links /\
    map website records = map Some links /\
    map serial_number records = map Z.of_nat (seq 1 (List.length links)) /\
    (links = [] -> records = []).
Proof.
  intros Hs Hall Hsl. rewrite build_records_run, Hs.
  assert (Hout : exists out,
             fst (attempts api_key country region cc delay_s links 1
                           (requests_sent tr1)) = Returns out).
  { destruct links as [|u rest]; [exists []; reflexivity|].
    apply attempts_total; [exact Hall | apply Hsl; discriminate]. }
  destruct Hout as (out & Hout).
  exists out. eexists. split; [now rewrite Hout|].
  destruct (attempts_returns _ _ _ _ _ _ _ _ _ Hout) as (Hlen & _ & _).
  split; [exact Hlen|].
  split; [exact (attempts_website _ _ _ _ _ _ _ _ _ Hout)|].
  split; [exact (attempts_serial _ _ _ _ _ links 1 _ _ Hout)|].
  intros ->. cbn in Hout. now injection Hout as <-.
Qed.

(** C2, as stated, fails.  The fetch of [http://[bad/] fails with a
    status of 500; [urlparse] raises in the [except] branch, no
    placeholder is appended and the run ends there.  And the name of a
    placeholder is the network location of the URL, not its host: for
    [http://b.example:8080/] it carries the port. *)
Lemma failed_fetch_of_a_bracket_link_aborts :
  (exists msg,
      fetch_as_request (env := canned bracket_listing) 1 "KEY" "http://[bad/" "cn"
      = Raises (RequestException msg)) /\
  fst (build_records (env := canned bracket_listing)
                     "KEY" "acme suppliers" "China" "Asia" "cn" 2 (Millis 1500) [])
    = Raises (ValueError "Invalid IPv6 URL") /\
  exists r,
    fst (build_records (env := canned ["/url?q=http://b.example:8080/&sa=U"])
                       "KEY" "acme suppliers" "China" "Asia" "cn" 2 (Millis 1500) [])
      = Returns [r] /\
    notes r = Some "Failed to fetch page: Read timed out." /\
    name r = "b.example:8080" /\ name r <> "b.example".
Proof.
  split; [eexists; vm_compute; reflexivity|].
  split; [vm_compute; reflexivity|].
  eexists. split; [vm_compute; reflexivity|].
  split; [reflexivity|]. split; [reflexivity | discriminate].
Qed.

(** C2, amended.  The search returns URLs that [urlparse] accepts and
    [time.sleep] accepts the delay.  When the fetch of the URL [u] at
    position [i + 1] of the list raises the request exception [exc], the
    record of [build_records] at that position has serial number [i + 1],
    website [u], as its name the network location of [u] (what [urlparse]
    returns as [netloc]: the authority, with the user information and
    the port when [u] has them), a note that is not empty, and no e-mail,
    contact number or company details; the run goes on: it returns a
    record for every URL of the list. *)
Theorem failed_fetch_gives_placeholder {env : Environment}
        (api_key query country region cc : string) (n : Z) (delay_s : duration)
        (tr tr1 : list event) (links : list string)
        (i : nat) (u : string) (exc : exn) :
  google_search api_key query cc n tr = (Returns links, tr1) ->
  Forall urlparse_accepts links ->
  sleep_error delay_s = None ->
  nth_error links i = Some u ->
  fetch_as_request (requests_sent tr + 1 + i) api_key u cc = Raises exc ->
  exists records tr2 r,
    build_records api_key query country region cc n delay_s tr
      = (Returns records, tr2) /\
    List.length records = List.length links /\
    map website records = map Some links /\
    nth_error records i = Some r /\
    serial_number r = Z.of_nat (i + 1) /\
    website r = Some u /\
    urlparse_netloc u = Returns (name r) /\
    name r = Urllib.netloc_text u /\
    (exists note, notes r = Some note /\ note <> ""
                  /\ note = ("Failed to fetch page: " ++ str_of_exn exc)%string) /\
    email r = None /\ contact_number r = None /\ company_details r = None.
Proof.
  intros Hs Hall Hsl Hu Hf.
  pose proof (google_search_requests_sent api_key query cc n tr) as Hsent.
  rewrite Hs in Hsent. cbn [snd] in Hsent.
  rewrite build_records_run, Hs.
  destruct (attempts_total api_key country region cc delay_s links Hall Hsl
                           1%Z (requests_sent tr1)) as (out & Hout).
  destruct (attempts_returns _ _ _ _ _ _ _ _ _ Hout) as (Hlen & Hnth & _).
  destruct (Hnth i u Hu) as (r & Hr & Ha).
  rewrite Hsent in Ha.
  replace (S (requests_sent tr) + i) with (requests_sent tr + 1 + i) in Ha by lia.
  apply attempt_returns in Ha.
  destruct Ha as [(html & p & F & _)|(exc' & F & R & _)]; [congruence|].
  rewrite Hf in F. injection F as <-.
  destruct (failure_record_returns _ _ _ _ _ _ R) as (Hn & Hrec).
  exists out. eexists. exists r. split; [now rewrite Hout|].
  split; [exact Hlen|].
  split; [exact (attempts_website _ _ _ _ _ _ _ _ _ Hout)|].
  split; [exact Hr|].
  split; [rewrite Hrec; cbn [new_record serial_number]; lia|].
  split; [now rewrite Hrec|].
  split; [exact Hn|].
  split; [now apply urlparse_netloc_text|].
  split; [eexists; split; [now rewrite Hrec|]; split; [discriminate | reflexivity]|].
  rewrite Hrec. repeat split.
Qed.

(** C3 at a failed fetch.  The search returns the URLs of [b.example],
    whose fetch times out, and of [a.example].  The request for the
    second page comes directly after the request for the first: the pause
    follows a page that was fetched, and none follows the failure. *)
Theorem failed_fetch_is_not_followed_by_pause :
  let tr :=
    snd (build_records
           (env := canned ["/url?q=http://b.example/&sa=U";
                           "/url?q=http://a.example/&sa=U"])
           "KEY" "acme suppliers" "China" "Asia" "cn" 2 (Millis 1500) []) in
  tr = [Request (_scraperapi_url "KEY" (search_url_of "acme suppliers" 2) "cn");
        Request (_scraperapi_url "KEY" "http://b.example/" "cn");
        Request (_scraperapi_url "KEY" "http://a.example/" "cn");
        Sleep (Millis 1500)]
  /\ paused_between_requests (tl tr) = false.
Proof. vm_compute. split; reflexivity. Qed.

(** The pause does follow every page that was fetched: when every fetch
    of a loop that returns does, no two requests are consecutive. *)
Lemma pause_after_each_fetched_page {env : Environment}
      (api_key country region cc : string) (delay_s : duration)
      (links : list string) :
  forall idx sent out,
    fst (attempts api_key country region cc delay_s links idx sent) = Returns out ->
    (forall j u, nth_error links j = Some u ->
                 exists html, fetch_as_request (sent + j) api_key u cc = Returns html) ->
    paused_between_requests
      (snd (attempts api_key country region cc delay_s links idx sent)) = true.
Proof.
  induction links as [|url rest IH]; intros idx sent out Hout H; [reflexivity|].
  cbn [attempts] in Hout |- *.
  destruct (H 0 url eq_refl) as (html & Hf). rewrite Nat.add_0_r in Hf.
  destruct (attempt api_key country region cc delay_s url idx sent)
    as [[r|e] ev] eqn:A; [|discriminate].
  assert (Ha : fst (attempt api_key country region cc delay_s url idx sent)
               = Returns r) by now rewrite A.
  apply attempt_returns in Ha. rewrite A in Ha. cbn [snd] in Ha.
  destruct Ha as [(h & p & _ & _ & _ & _ & ->)|(exc & F & _)]; [|congruence].
  specialize (IH (idx + 1)%Z (S sent)).
  destruct (attempts api_key country region cc delay_s rest (idx + 1) (S sent))
    as [[out'|e] ev'] eqn:R; [|discriminate].
  cbn [snd app paused_between_requests andb] in IH |- *.
  rewrite (IH out' eq_refl).
  - now destruct ev'.
  - intros j u Hu. destruct (H (S j) u Hu) as (h' & Hh).
    exists h'. now rewrite <- Hh, Nat.add_succ_r.
Qed.

(* ------------------------------------------------------------------ *)
(** * The page interpreter *)

Section Interpreter.

Context {env : Environment}.

Lemma _cleanup_text_blank_paragraphs (paragraphs : list string) :
  Forall (fun p => p = "") paragraphs ->
  _cleanup_text (join " " (slice_to 3 paragraphs)) = "".
Proof.
  intros H.
  destruct H as [|p1 l1 -> H]; [reflexivity|].
  destruct H as [|p2 l2 -> H]; [reflexivity|].
  destruct H as [|p3 l3 -> H]; reflexivity.
Qed.

Lemma _best_title_none (soup : Soup) :
  soup_title soup = None -> soup_find_h1 soup = None -> _best_title soup = "".
Proof. unfold _best_title. now intros -> ->. Qed.

Lemma _page_summary_none (soup : Soup) :
  soup_find_meta_description soup = None ->
  Forall (fun p => tag_text p = "") (soup_find_all_p soup) ->
  _page_summary soup = "".
Proof.
  unfold _page_summary. intros -> H.
  destruct (nonempty _); [|reflexivity].
  apply _cleanup_text_blank_paragraphs.
  now apply Forall_map.
Qed.

End Interpreter.

(** C7, as stated, fails.  The page of [http://[d.example/] is fetched
    and is empty; with no title to use, [urlparse] is applied to the URL
    and raises: [scrape_supplier_page] raises, and returns no record.
    And the name taken from the URL is its network location, not its
    host: for [http://d.example:8080/] it carries the port. *)
Lemma scrape_supplier_page_raises_on_a_bracket_url :
  fetch_as_request (env := canned []) 0 "KEY" "http://[d.example/" "cn"
    = Returns "" /\
  fst (scrape_supplier_page (env := canned [])
                            "KEY" "http://[d.example/" "China" "Asia" "cn" [])
    = Raises (ValueError "Invalid IPv6 URL") /\
  exists record,
    fst (scrape_supplier_page (env := canned [])
                              "KEY" "http://d.example:8080/" "China" "Asia" "cn" [])
      = Returns record /\
    name record = "d.example:8080" /\ name record <> "d.example".
Proof.
  split; [vm_compute; reflexivity|].
  split; [vm_compute; reflexivity|].
  eexists. split; [vm_compute; reflexivity|].
  split; [reflexivity | discriminate].
Qed.

(** C7, amended.  Whatever the HTML that was fetched, when its cleaned
    title is not empty or [urlparse] accepts the URL,
    [scrape_supplier_page] returns a record; when the parsed document has
    no title element, no level-1 heading, no description meta tag and no
    paragraph with text, the name of the record is the network location
    of the URL (what [urlparse] returns as [netloc]) and its company
    details are absent. *)
Theorem page_without_title_or_summary {env : Environment}
        (api_key url country region cc : string) (tr : list event)
        (html : string) :
  fetch_as_request (requests_sent tr) api_key url cc = Returns html ->
  _best_title (BeautifulSoup html) <> "" \/ urlparse_accepts url ->
  exists record,
    fst (scrape_supplier_page api_key url country region cc tr) = Returns record /\
    (soup_title (BeautifulSoup html) = None ->
     soup_find_h1 (BeautifulSoup html) = None ->
     soup_find_meta_description (BeautifulSoup html) = None ->
     Forall (fun p => tag_text p = "") (soup_find_all_p (BeautifulSoup html)) ->
     urlparse_netloc url = Returns (name record) /\
     name record = Urllib.netloc_text url /\
     company_details record = None).
Proof.
  intros Hf Hok. rewrite scrape_supplier_page_run, Hf.
  destruct (page_record_total country region url html Hok) as (p & Hp).
  exists p. split; [now rewrite Hp|].
  intros Ht Hh Hm Hpar.
  destruct (page_record_returns _ _ _ _ _ Hp) as ([(Hne & _)|(_ & Hu)] & Hrec).
  - now rewrite (_best_title_none _ Ht Hh) in Hne.
  - split; [exact Hu|]. split; [now apply urlparse_netloc_text|].
    rewrite Hrec. cbn [new_record company_details].
    now rewrite (_page_summary_none _ Hm Hpar).
Qed.

(** C4, as stated, fails: [scrape_supplier_page] sends a request, and with
    the same URL, country and region its outcome differs from one
    network to another. *)
Lemma scrape_supplier_page_uses_the_network :
  ~ performs_no_io
      (scrape_supplier_page (env := canned [])
                            "KEY" "http://a.example/" "China" "Asia" "cn")
  /\
  fst (scrape_supplier_page (env := canned [])
                            "KEY" "http://b.example/" "China" "Asia" "cn" [])
  <>
  fst (scrape_supplier_page (env := canned_all_up [])
                            "KEY" "http://b.example/" "China" "Asia" "cn" []).
Proof.
  split.
  - intros H. specialize (H []). vm_compute in H. discriminate.
  - vm_compute. discriminate.
Qed.

(** C4, amended.  [scrape_supplier_page] sends one request, the fetch of
    the URL through the proxy, and nothing else; when the fetch raises,
    so does it; when the fetch returns HTML, its outcome is [page_record]
    of the URL, that HTML, the country and the region: a record, or the
    exception that [urlparse] raises on the URL when the page has no
    title.  So two runs, on any two networks, whose fetches returned the
    same HTML, parsed alike, with the same [urlparse], have the same
    outcome. *)
Theorem scrape_supplier_page_is_one_fetch_then_pure {env : Environment}
        (api_key url country region cc : string) (tr : list event) :
  snd (scrape_supplier_page api_key url country region cc tr)
    = tr ++ [Request (_scraperapi_url api_key url cc)] /\
  fst (scrape_supplier_page api_key url country region cc tr)
    = match fst (_get_html api_key url cc tr) with
      | Returns html => page_record url html country region
      | Raises e => Raises e
      end /\
  forall (env2 : Environment) (api_key2 cc2 : string) (tr2 : list event)
         (html : string),
    fst (_get_html (env := env) api_key url cc tr) = Returns html ->
    fst (_get_html (env := env2) api_key2 url cc2 tr2) = Returns html ->
    BeautifulSoup (Environment := env2) html
      = BeautifulSoup (Environment := env) html ->
    urlparse_netloc (env := env2) url = urlparse_netloc (env := env) url ->
    fst (scrape_supplier_page (env := env2) api_key2 url country region cc2 tr2)
    = fst (scrape_supplier_page (env := env) api_key url country region cc tr).
Proof.
  split; [now rewrite scrape_supplier_page_run|].
  split; [now rewrite scrape_supplier_page_run, _get_html_as_request|].
  intros env2 api_key2 cc2 tr2 html H1 H2 Hp Hu.
  rewrite (_get_html_as_request (env := env)) in H1.
  rewrite (_get_html_as_request (env := env2)) in H2.
  rewrite !scrape_supplier_page_run. cbn [fst].
  rewrite H1, H2.
  unfold page_record. now rewrite Hp, Hu.
Qed.

(** C9, as stated, fails.  The listing carries the link
    ["/preferences?hl=en"], which has no network location; its fetch
    fails and the record of the run has an empty name. *)
Lemma build_records_gives_an_empty_name :
  exists records r,
    fst (build_records (env := canned ["/url?q=/preferences?hl=en&sa=U"])
                       "KEY" "acme suppliers" "China" "Asia" "cn" 1 (Millis 1500) [])
      = Returns records /\
    In r records /\ name r = "".
Proof.
  eexists. eexists. split; [vm_compute; reflexivity|].
  split; [left; reflexivity | reflexivity].
Qed.

(** C9, amended.  A run of [build_records] that returns gives one record
    for each URL of the search, and the record for the URL [u], after a
    fetch that returned as after one that raised, has [u] as its
    website, which is not empty.  Its name, after a fetch that returned,
    is the cleaned title of the page fetched when that title is not
    empty, and the network location of [u] when it is; after a fetch
    that raised it is the network location of [u].  So the name is not
    empty whenever [u] has a network location. *)
Theorem records_have_a_website_and_a_name {env : Environment}
        (api_key query country region cc : string) (n : Z) (delay_s : duration)
        (tr tr1 tr2 : list event) (links : list string)
        (records : list SupplierRecord) :
  google_search api_key query cc n tr = (Returns links, tr1) ->
  build_records api_key query country region cc n delay_s tr
    = (Returns records, tr2) ->
  List.length records = List.length links /\
  forall (i : nat) (u : string),
    nth_error links i = Some u ->
    exists r,
      nth_error records i = Some r /\
      website r = Some u /\ u <> "" /\
      match fetch_as_request (requests_sent tr + 1 + i) api_key u cc with
      | Returns html =>
          (_best_title (BeautifulSoup html) <> "" /\
           name r = _best_title (BeautifulSoup html)) \/
          (_best_title (BeautifulSoup html) = "" /\
           urlparse_netloc u = Returns (name r) /\
           name r = Urllib.netloc_text u)
      | Raises _ =>
          urlparse_netloc u = Returns (name r) /\
          name r = Urllib.netloc_text u
      end /\
      (Urllib.netloc_text u <> "" -> name r <> "").
Proof.
  intros Hs Hb.
  pose proof (google_search_requests_sent api_key query cc n tr) as Hsent.
  rewrite Hs in Hsent. cbn [snd] in Hsent.
  rewrite build_records_run, Hs in Hb.
  injection Hb as Hout _.
  destruct (attempts_returns _ _ _ _ _ _ _ _ _ Hout) as (Hlen & Hnth & _).
  split; [exact Hlen|].
  intros i u Hu.
  destruct (Hnth i u Hu) as (r & Hr & Ha).
  exists r. split; [exact Hr|].
  destruct (attempt_website_serial _ _ _ _ _ _ _ _ _ Ha) as (Hw & _).
  split; [exact Hw|].
  destruct (google_search_links _ _ _ _ _ _ _ Hs) as (_ & _ & _ & _ & Hel & _).
  rewrite Forall_forall in Hel.
  split; [apply (Hel u), (nth_error_In _ _ Hu)|].
  rewrite Hsent in Ha.
  replace (S (requests_sent tr) + i) with (requests_sent tr + 1 + i) in Ha by lia.
  apply attempt_returns in Ha.
  destruct Ha as [(html & p & F & P & -> & _)|(exc & F & R & _)]; rewrite F.
  - destruct (page_record_returns _ _ _ _ _ P) as ([(Hne & Hn)|(He & Hn)] & _);
      cbn [set_serial_number name].
    + split; [left; now split|]. intros _. now rewrite Hn.
    + pose proof (urlparse_netloc_text _ _ Hn) as Ht.
      split; [right; now repeat split|]. intros Hnl. now rewrite Ht.
  - destruct (failure_record_returns _ _ _ _ _ _ R) as (Hn & _).
    pose proof (urlparse_netloc_text _ _ Hn) as Ht.
    split; [now split|]. intros Hnl. now rewrite Ht.
Qed.

(* ------------------------------------------------------------------ *)
(** * The scenario of the specification *)

Lemma acme_links_accepted :
  Forall (urlparse_accepts (env := canned acme_listing))
         ["http://a.example/"; "http://b.example/"].
Proof.
  constructor; [exists "a.example"; vm_compute; reflexivity|].
  constructor; [exists "b.example"; vm_compute; reflexivity|].
  constructor.
Defined.

(** C1 on the scenario: two URLs, two records, numbered 1 and 2. *)
Lemma build_records_one_record_per_url_scenario :
  exists records tr2,
    build_records (env := canned acme_listing)
                  "KEY" "acme suppliers" "China" "Asia" "cn" 2 (Millis 1500) []
      = (Returns records, tr2) /\
    List.length records = 2 /\
    map website records = [Some "http://a.example/"; Some "http://b.example/"] /\
    map serial_number records = [1%Z; 2%Z] /\
    (["http://a.example/"; "http://b.example/"] = [] -> records = []).
Proof.
  apply (build_records_one_record_per_url
           (env := canned acme_listing)
           "KEY" "acme suppliers" "China" "Asia" "cn" 2 (Millis 1500) []
           [Request (_scraperapi_url "KEY" (search_url_of "acme suppliers" 2) "cn")]
           ["http://a.example/"; "http://b.example/"]).
  - vm_compute. reflexivity.
  - exact acme_links_accepted.
  - intros _. reflexivity.
Defined.

(** C2 on the scenario: the fetch of the second URL times out. *)
Lemma failed_fetch_gives_placeholder_scenario :
  exists records tr2 r,
    build_records (env := canned acme_listing)
                  "KEY" "acme suppliers" "China" "Asia" "cn" 2 (Millis 1500) []
      = (Returns records, tr2) /\
    List.length records = 2 /\
    map website records = [Some "http://a.example/"; Some "http://b.example/"] /\
    nth_error records 1 = Some r /\
    serial_number r = 2%Z /\
    website r = Some "http://b.example/" /\
    urlparse_netloc (env := canned acme_listing) "http://b.example/"
      = Returns (name r) /\
    name r = "b.example" /\
    (exists note, notes r = Some note /\ note <> ""
                  /\ note = "Failed to fetch page: Read timed out.") /\
    email r = None /\ contact_number r = None /\ company_details r = None.
Proof.
  apply (failed_fetch_gives_placeholder
           (env := canned acme_listing)
           "KEY" "acme suppliers" "China" "Asia" "cn" 2 (Millis 1500) []
           [Request (_scraperapi_url "KEY" (search_url_of "acme suppliers" 2) "cn")]
           ["http://a.example/"; "http://b.example/"]
           1 "http://b.example/" (RequestException "Read timed out.")).
  - vm_compute. reflexivity.
  - exact acme_links_accepted.
  - reflexivity.
  - reflexivity.
  - vm_compute. reflexivity.
Defined.

(** C7 on an empty page: the page of [d.example] is empty. *)
Lemma page_without_title_or_summary_empty_page :
  exists record,
    fst (scrape_supplier_page (env := canned [])
                              "KEY" "http://d.example/" "China" "Asia" "cn" [])
      = Returns record /\
    name record = "d.example" /\ company_details record = None.
Proof.
  destruct (page_without_title_or_summary
              (env := canned [])
              "KEY" "http://d.example/" "China" "Asia" "cn" [] "" eq_refl)
    as (record & Hr & Hn).
  - right. exists "d.example". vm_compute. reflexivity.
  - exists record. split; [exact Hr|].
    destruct Hn as (_ & Hn & Hc); try reflexivity; [constructor|].
    split; [exact Hn | exact Hc].
Defined.

(** C9, amended, on the scenario: the first record is named by the title
    of its page, the second by the network location of its URL. *)
Lemma records_have_a_website_and_a_name_scenario :
  exists r1 r2,
    fst (build_records (env := canned acme_listing)
                       "KEY" "acme suppliers" "China" "Asia" "cn" 2 (Millis 1500) [])
      = Returns [r1; r2] /\
    (website r1 = Some "http://a.example/" /\ name r1 = "Acme Co") /\
    (website r2 = Some "http://b.example/" /\ name r2 = "b.example").
Proof.
  eexists. eexists. split; [vm_compute; reflexivity|].
  match goal with
  | |- (website ?a = _ /\ _) /\ (website ?b = _ /\ _) =>
      destruct (records_have_a_website_and_a_name
                  (env := canned acme_listing)
                  "KEY" "acme suppliers" "China" "Asia" "cn" 2 (Millis 1500) []
                  [Request (_scraperapi_url "KEY" (search_url_of "acme suppliers" 2) "cn")]
                  [Request (_scraperapi_url "KEY" (search_url_of "acme suppliers" 2) "cn");
                   Request (_scraperapi_url "KEY" "http://a.example/" "cn");
                   Sleep (Millis 1500);
                   Request (_scraperapi_url "KEY" "http://b.example/" "cn")]
                  ["http://a.example/"; "http://b.example/"]
                  [a; b])
        as (_ & H);
        [vm_compute; reflexivity | vm_compute; reflexivity |]
  end.
  destruct (H 0 "http://a.example/" eq_refl) as (r1 & Hr1 & Hw1 & _ & Hn1 & _).
  destruct (H 1 "http://b.example/" eq_refl) as (r2 & Hr2 & Hw2 & _ & Hn2 & _).
  injection Hr1 as <-. injection Hr2 as <-.
  split; (split; [assumption|]).
  - vm_compute in Hn1. destruct Hn1 as [(_ & Hn1)|(He & _)];
      [vm_compute; exact Hn1 | discriminate].
  - vm_compute in Hn2. destruct Hn2 as (_ & Hn2). vm_compute. exact Hn2.
Defined.

(** C4, amended, on two networks: the page of [a.example], fetched with
    another key and region code on a network where every page is up, gives
    the record it gives in the scenario. *)
Lemma scrape_supplier_page_same_html_same_record :
  fst (scrape_supplier_page (env := canned_all_up [])
                            "OTHER" "http://a.example/" "China" "Asia" "us"
                            [Sleep (Millis 1)])
  = fst (scrape_supplier_page (env := canned [])
                              "KEY" "http://a.example/" "China" "Asia" "cn" []).
Proof.
  apply (proj2 (proj2 (scrape_supplier_page_is_one_fetch_then_pure
                         (env := canned [])
                         "KEY" "http://a.example/" "China" "Asia" "cn" []))
               (canned_all_up []) "OTHER" "us" [Sleep (Millis 1)] "<acme>");
    vm_compute; reflexivity.
Defined.

(** C6 on a record of the scenario: the placeholder of [b.example] has no
    e-mail and no contact number; a directory text fills both, and a
    second text then changes neither. *)
Lemma enrich_fills_absent_fields_only_scenario :
  let enriched :=
    enrich_record_from_directory b_placeholder
                                 "B Ltd, sales@b.example, tel 555-1234" in
  email enriched = Some "sales@b.example" /\
  contact_number enriched = Some "555-1234" /\
  email (enrich_record_from_directory enriched "other@c.example 777-9999")
    = Some "sales@b.example" /\
  contact_number (enrich_record_from_directory enriched "other@c.example 777-9999")
    = Some "555-1234".
Proof.
  intros enriched.
  destruct (enrich_fills_absent_fields_only b_placeholder
              "B Ltd, sales@b.example, tel 555-1234")
    as (He & Hc & _).
  destruct (enrich_fills_absent_fields_only enriched "other@c.example 777-9999")
    as (_ & _ & Hke & Hkc & _).
  destruct He as (He & Hte); [reflexivity | vm_compute; discriminate |].
  destruct Hc as (Hc & Htc); [reflexivity | vm_compute; discriminate |].
  fold enriched in He, Hc, Hte, Htc.
  split; [|split; [|split]].
  - rewrite He. vm_compute. reflexivity.
  - rewrite Hc. vm_compute. reflexivity.
  - rewrite (Hke Hte), He. vm_compute. reflexivity.
  - rewrite (Hkc Htc), Hc. vm_compute. reflexivity.
Defined.

(* ------------------------------------------------------------------ *)
(** * Cleaning a text *)

Section Cleanup.

Lemma space_is_space : isspace " " = true.
Proof. reflexivity. Qed.

Lemma single_spaced_weaken (s : string) :
  single_spaced s true = true -> single_spaced s false = true.
Proof.
  destruct s as [|c s]; simpl; [reflexivity|].
  destruct (isspace c); [|auto]. rewrite andb_false_r. discriminate.
Qed.

Lemma sub_runs_single_spaced (s : string) :
  forall b, single_spaced (sub_runs space " " s b) b = true.
Proof.
  induction s as [|c s IH]; intros b; [reflexivity|].
  cbn [sub_runs]. unfold space at 1.
  destruct (isspace c) eqn:E.
  - destruct b; [apply IH|].
    cbn [String.append single_spaced]. rewrite space_is_space.
    cbn [negb andb]. rewrite Ascii.eqb_refl. apply IH.
  - cbn [single_spaced]. rewrite E. apply IH.
Qed.

Lemma lstrip_single_spaced_id (s : string) :
  single_spaced s true = true -> lstrip s = s.
Proof.
  destruct s as [|c s]; simpl; [reflexivity|].
  destruct (isspace c); [|reflexivity]. rewrite andb_false_r. discriminate.
Qed.

Lemma lstrip_single_spaced (s : string) :
  single_spaced s false = true -> single_spaced (lstrip s) true = true.
Proof.
  destruct s as [|c s]; [reflexivity|].
  cbn [lstrip single_spaced].
  destruct (isspace c) eqn:E.
  - intros H. apply andb_true_iff in H as [_ H].
    now rewrite (lstrip_single_spaced_id _ H).
  - intros H. cbn [single_spaced]. now rewrite E.
Qed.

Lemma rstrip_single_spaced (s : string) :
  forall prev,
    single_spaced s prev = true ->
    single_spaced (rstrip s) prev = true /\ ends_with_space (rstrip s) = false.
Proof.
  induction s as [|c s IH]; intros prev H; [split; reflexivity|].
  cbn [single_spaced] in H. cbn [rstrip].
  destruct (isspace c) eqn:E.
  - apply andb_true_iff in H as [H1 H2].
    destruct (IH _ H2) as [Hs He].
    destruct (rstrip s) as [|c' r]; [split; reflexivity|].
    split.
    + cbn [single_spaced]. rewrite E, H1. exact Hs.
    + exact He.
  - destruct (IH _ H) as [Hs He].
    destruct (rstrip s) as [|c' r].
    + split; [cbn [single_spaced]; now rewrite E | cbn; exact E].
    + split; [cbn [single_spaced]; rewrite E; exact Hs | exact He].
Qed.

Lemma rstrip_id (s : string) : ends_with_space s = false -> rstrip s = s.
Proof.
  induction s as [|c s IH]; [reflexivity|].
  cbn [rstrip]. destruct s as [|c' s].
  - cbn. now intros ->.
  - intros H. change (ends_with_space (String c' s) = false) in H.
    now rewrite (IH H).
Qed.

Lemma sub_runs_id (s : string) :
  forall b, single_spaced s b = true -> sub_runs space " " s b = s.
Proof.
  induction s as [|c s IH]; intros b H; [reflexivity|].
  cbn [single_spaced] in H. cbn [sub_runs]. unfold space at 1.
  destruct (isspace c) eqn:E.
  - apply andb_true_iff in H as [H1 H2].
    apply andb_true_iff in H1 as [Hc Hb].
    apply Ascii.eqb_eq in Hc as ->.
    apply negb_true_iff in Hb as ->.
    cbn [String.append]. now rewrite (IH _ H2).
  - now rewrite (IH _ H).
Qed.

Lemma _cleanup_text_fixed (s : string) : is_clean s = true -> _cleanup_text s = s.
Proof.
  unfold is_clean, _cleanup_text, strip. intros H.
  apply andb_true_iff in H as [Hs He]. apply negb_true_iff in He.
  rewrite (sub_runs_id _ _ (single_spaced_weaken _ Hs)).
  now rewrite (lstrip_single_spaced_id _ Hs), (rstrip_id _ He).
Qed.

Lemma _cleanup_text_clean (text : string) :
  single_spaced (_cleanup_text text) true = true /\
  ends_with_space (_cleanup_text text) = false.
Proof.
  unfold _cleanup_text, strip.
  pose proof (sub_runs_single_spaced text false) as H.
  apply lstrip_single_spaced in H.
  apply (rstrip_single_spaced _ _ H).
Qed.

End Cleanup.

(** X1.  The text [_cleanup_text] returns has single spaces as its only
    whitespace, none of them at either end. *)
Theorem _cleanup_text_is_clean (text : string) :
  is_clean (_cleanup_text text) = true.
Proof.
  unfold is_clean.
  destruct (_cleanup_text_clean text) as [Hs He].
  now rewrite Hs, He.
Qed.

(** X2.  [_cleanup_text] changes nothing in a text it has cleaned:
    applying it twice gives what applying it once gives. *)
Theorem _cleanup_text_idempotent (text : string) :
  _cleanup_text (_cleanup_text text) = _cleanup_text text.
Proof.
  apply _cleanup_text_fixed. unfold is_clean.
  destruct (_cleanup_text_clean text) as [Hs He].
  now rewrite Hs, He.
Qed.

(* ------------------------------------------------------------------ *)
(** * The shape of a phone match *)

Section PhoneShape.

Local Open Scope string_scope.

Lemma lang_opt (r : regex) (w : string) :
  lang (opt r) w -> w = "" \/ lang r w.
Proof.
  intros (ws & [_ Hlen] & Hall & ->).
  destruct Hall as [|w1 ws H1 Hall]; [now left|].
  destruct Hall as [|w2 ws H2 Hall]; [|simpl in Hlen; lia].
  right. simpl. exact H1.
Qed.

Lemma lang_repeat_set (lo hi : nat) (p : ascii -> bool) (w : string) :
  lang (Repeat lo hi (Set_ p)) w ->
  lo <= String.length w <= hi /\ string_forall p w = true.
Proof.
  intros (ws & Hlen & Hall & ->).
  assert (H : String.length (String.concat "" ws) = List.length ws /\
              string_forall p (String.concat "" ws) = true).
  { clear Hlen. induction Hall as [|w ws (c & -> & Hc) _ [IH1 IH2]];
      [split; reflexivity|].
    rewrite concat_empty_cons. cbn [String.append String.length string_forall].
    rewrite Hc, IH1, IH2. split; reflexivity. }
  destruct H as [-> H]. auto.
Qed.

Lemma lang_opt_set (p : ascii -> bool) (w : string) :
  lang (opt (Set_ p)) w -> w = "" \/ exists c, w = String c "" /\ p c = true.
Proof. intros H. apply lang_opt in H as [->|H]; [now left | now right]. Qed.

Lemma digit_count_append (a b : string) :
  digit_count (a ++ b) = digit_count a + digit_count b.
Proof. induction a as [|c a IH]; simpl; [reflexivity | rewrite IH; lia]. Qed.

Lemma digit_count_digits (d : string) :
  string_forall digit d = true -> digit_count d = String.length d.
Proof.
  induction d as [|c d IH]; simpl; [reflexivity|].
  unfold digit at 1. intros H. apply andb_true_iff in H as [-> H].
  now rewrite IH.
Qed.

Lemma digit_count_le_length (s : string) : digit_count s <= String.length s.
Proof.
  induction s as [|c s IH]; simpl; [lia|]. destruct (isdecimal c); lia.
Qed.

Lemma sep_char_not_decimal (c : ascii) : sep_char c = true -> isdecimal c = false.
Proof.
  destruct c as [[] [] [] [] [] [] [] []]; vm_compute; congruence.
Qed.

Lemma decimal_not_space (c : ascii) : isdecimal c = true -> isspace c = false.
Proof.
  destruct c as [[] [] [] [] [] [] [] []]; vm_compute; congruence.
Qed.

Lemma starts_nonspace_append (a b : string) :
  starts_nonspace a = true -> starts_nonspace (a ++ b) = true.
Proof. now destruct a. Qed.

Lemma starts_nonspace_digits (d : string) :
  1 <= String.length d -> string_forall digit d = true -> starts_nonspace d = true.
Proof.
  destruct d as [|c d]; simpl; [lia|]. unfold digit at 1.
  intros _ H. apply andb_true_iff in H as [H _].
  now rewrite (decimal_not_space _ H).
Qed.

Lemma ends_with_space_append (a b : string) :
  b <> "" -> ends_with_space (a ++ b) = ends_with_space b.
Proof.
  intros Hb. induction a as [|c a IH]; [reflexivity|].
  cbn [String.append]. 
  destruct (a ++ b) as [|c' r] eqn:E.
  - destruct a; [simpl in E; congruence | discriminate].
  - exact IH.
Qed.

Lemma ends_with_space_digits (d : string) :
  string_forall digit d = true -> ends_with_space d = false.
Proof.
  induction d as [|c d IH]; [reflexivity|].
  cbn [string_forall]. unfold digit at 1.
  intros H. apply andb_true_iff in H as [Hc H].
  destruct d as [|c' d]; [cbn; now apply decimal_not_space|].
  now apply IH.
Qed.

Lemma lstrip_starts_nonspace (s : string) :
  starts_nonspace s = true -> lstrip s = s.
Proof.
  destruct s as [|c s]; simpl; [discriminate|].
  now intros ->%negb_true_iff.
Qed.

(** A match of [PHONE_RE], piece by piece: an optional country code, an
    optional area code, and two groups of digits that a separator may
    part. *)
Lemma lang_PHONE_RE (w : string) :
  lang PHONE_RE w ->
  exists g1 g2 d1 s d2,
    w = g1 ++ g2 ++ d1 ++ s ++ d2 /\
    (g1 = "" \/ starts_nonspace g1 = true) /\
    digit_count g1 <= 3 /\ String.length g1 <= 5 /\
    (g2 = "" \/ starts_nonspace g2 = true) /\
    digit_count g2 <= 4 /\ String.length g2 <= 7 /\
    3 <= String.length d1 <= 4 /\ string_forall digit d1 = true /\
    digit_count s = 0 /\ String.length s <= 1 /\
    3 <= String.length d2 <= 4 /\ string_forall digit d2 = true.
Proof.
  intros (g1 & r1 & -> & Hg1 & g2 & r2 & -> & Hg2 & d1 & r3 & -> & Hd1 &
          s & d2 & -> & Hs & Hd2).
  apply lang_repeat_set in Hd1 as [Hd1 Hd1'], Hd2 as [Hd2 Hd2'].
  exists g1, g2, d1, s, d2. split; [reflexivity|].
  assert (Hsep : forall x, lang (opt (Set_ sep_char)) x ->
                           digit_count x = 0 /\ String.length x <= 1).
  { intros x Hx. apply lang_opt_set in Hx as [->|(c & -> & Hc)];
      [split; simpl; lia|].
    simpl. rewrite (sep_char_not_decimal _ Hc). split; lia. }
  assert (Hlit : forall a x, isdecimal a = false -> isspace a = false ->
                             lang (opt (Set_ (lit a))) x ->
                             digit_count x = 0 /\ String.length x <= 1 /\
                             (x = "" \/ starts_nonspace x = true)).
  { intros a x Ha Ha' Hx. apply lang_opt_set in Hx as [->|(c & -> & Hc)];
      [repeat split; simpl; auto|].
    apply Ascii.eqb_eq in Hc as ->. simpl. rewrite Ha, Ha'.
    repeat split; auto. }
  destruct (Hsep _ Hs) as [Hs1 Hs2].
  assert (G1 : (g1 = "" \/ starts_nonspace g1 = true) /\
               digit_count g1 <= 3 /\ String.length g1 <= 5).
  { apply lang_opt in Hg1 as [->|(pl & r & -> & Hpl & dd & sp & -> & Hdd & Hsp)];
      [simpl; auto with arith|].
    apply lang_repeat_set in Hdd as [Hdd Hdd'].
    destruct (Hsep _ Hsp) as [Hsp1 Hsp2].
    destruct (Hlit "+"%char pl eq_refl eq_refl Hpl) as (Hp1 & Hp2 & Hp3).
    rewrite !digit_count_append, !length_append, Hp1, Hsp1,
            (digit_count_digits _ Hdd').
    repeat split; try lia.
    right. destruct Hp3 as [->|Hp3].
    - cbn [String.append].
      apply starts_nonspace_append, starts_nonspace_digits; [lia | assumption].
    - now apply starts_nonspace_append. }
  assert (G2 : (g2 = "" \/ starts_nonspace g2 = true) /\
               digit_count g2 <= 4 /\ String.length g2 <= 7).
  { apply lang_opt in Hg2 as [->|(pl & r & -> & Hpl & dd & r' & -> & Hdd &
                                   pr & sp & -> & Hpr & Hsp)];
      [simpl; auto with arith|].
    apply lang_repeat_set in Hdd as [Hdd Hdd'].
    destruct (Hsep _ Hsp) as [Hsp1 Hsp2].
    destruct (Hlit "("%char pl eq_refl eq_refl Hpl) as (Hp1 & Hp2 & Hp3).
    destruct (Hlit ")"%char pr eq_refl eq_refl Hpr) as (Hq1 & Hq2 & _).
    rewrite !digit_count_append, !length_append, Hp1, Hq1, Hsp1,
            (digit_count_digits _ Hdd').
    repeat split; try lia.
    right. destruct Hp3 as [->|Hp3].
    - cbn [String.append].
      apply starts_nonspace_append, starts_nonspace_digits; [lia | assumption].
    - now apply starts_nonspace_append. }
  tauto.
Qed.

(** No whitespace starts or ends a match of [PHONE_RE], so [strip]
    leaves it as it is. *)
Lemma strip_PHONE_RE (w : string) : lang PHONE_RE w -> strip w = w.
Proof.
  intros H.
  destruct (lang_PHONE_RE _ H)
    as (g1 & g2 & d1 & s & d2 & -> & G1 & _ & _ & G2 & _ & _ & Hd1 & Hd1' &
        _ & _ & Hd2 & Hd2').
  unfold strip.
  assert (Hstart : starts_nonspace (g1 ++ g2 ++ d1 ++ s ++ d2) = true).
  { destruct G1 as [->|G1]; [|now apply starts_nonspace_append].
    cbn [String.append].
    destruct G2 as [->|G2]; [|now apply starts_nonspace_append].
    cbn [String.append].
    apply starts_nonspace_append, starts_nonspace_digits; [lia | assumption]. }
  rewrite (lstrip_starts_nonspace _ Hstart).
  apply rstrip_id.
  assert (Hne : d2 <> "") by (destruct d2; [simpl in Hd2; lia | discriminate]).
  rewrite <- !append_assoc.
  rewrite (ends_with_space_append _ d2 Hne).
  now apply ends_with_space_digits.
Qed.

Lemma digit_count_PHONE_RE (w : string) :
  lang PHONE_RE w ->
  6 <= digit_count w <= 15 /\ 6 <= String.length w <= 21.
Proof.
  intros H.
  destruct (lang_PHONE_RE _ H)
    as (g1 & g2 & d1 & s & d2 & -> & _ & G1 & G1' & _ & G2 & G2' & Hd1 & Hd1' &
        Hs & Hs' & Hd2 & Hd2').
  rewrite !digit_count_append, !length_append,
          (digit_count_digits _ Hd1'), (digit_count_digits _ Hd2'), Hs.
  lia.
Qed.

Lemma _extract_phones_loop_filter (found : list string) :
  forall phones,
    Forall (lang PHONE_RE) found ->
    _extract_phones_loop found phones =
    (phones ++ filter (fun v => (7 <=? digit_count v)%nat) found)%list.
Proof.
  induction found as [|value rest IH]; intros phones H.
  - simpl. now rewrite app_nil_r.
  - inversion H as [|? ? Hv Hrest]; subst.
    cbn [_extract_phones_loop filter].
    rewrite length_sub_nondigit, (strip_PHONE_RE _ Hv).
    destruct (7 <=? digit_count value)%nat.
    + rewrite (IH _ Hrest). now rewrite <- app_assoc.
    + now apply IH.
Qed.

Lemma _extract_phones_filter (text : string) :
  _extract_phones text =
  sorted (set_of (filter (fun v => (7 <=? digit_count v)%nat)
                         (finditer PHONE_RE text))).
Proof.
  unfold _extract_phones.
  rewrite _extract_phones_loop_filter; [reflexivity|].
  apply Forall_forall. intros m Hm. now apply finditer_sound in Hm.
Qed.

End PhoneShape.

(** X3.  The call of [strip] in [_extract_phones] never changes a match:
    the function returns, sorted and without duplicates, exactly the
    matches of the phone pattern in the text that have seven digits or
    more. *)
Theorem _extract_phones_are_the_long_matches (text : string) :
  _extract_phones text =
  sorted (set_of (filter (fun v => (7 <=? digit_count v)%nat)
                         (finditer PHONE_RE text))).
Proof. apply _extract_phones_filter. Qed.

(** X4.  Every phone number [_extract_phones] returns is a piece of the
    text, matches the phone pattern, starts and ends with no whitespace,
    and has from 7 to 15 digits in at most 21 characters. *)
Theorem _extract_phones_shape (text phone : string) :
  In phone (_extract_phones text) ->
  occurs_in phone text /\ lang PHONE_RE phone /\ strip phone = phone /\
  7 <= digit_count phone <= 15 /\ String.length phone <= 21.
Proof.
  rewrite _extract_phones_filter, sorted_set_In, filter_In.
  intros [Hin Hd]. apply Nat.leb_le in Hd.
  destruct (finditer_sound _ _ _ Hin) as [Hl Ho].
  destruct (digit_count_PHONE_RE _ Hl) as [Hc Hlen].
  repeat split; auto using strip_PHONE_RE; lia.
Qed.

(* ------------------------------------------------------------------ *)
(** * What the records hold *)

Section RecordFields.

Context {env : Environment}.

Lemma joined_matches_nonempty (l : list string) :
  (forall m, In m l -> m <> "") ->
  absent_or_nonempty (if nonempty l then Some (join ", " l) else None).
Proof.
  destruct l as [|x l]; intros H; [exact I|].
  cbn [nonempty absent_or_nonempty].
  apply join_nonempty, H. now left.
Qed.

Lemma or_None_nonempty (s : string) : absent_or_nonempty (or_None s).
Proof. destruct s; simpl; [exact I | discriminate]. Qed.

Lemma _cleanup_text_clean_text (text : string) :
  is_clean (_cleanup_text text) = true.
Proof.
  unfold is_clean.
  destruct (_cleanup_text_clean text) as [Hs He].
  now rewrite Hs, He.
Qed.

Lemma _page_summary_is_clean (soup : Soup) :
  _page_summary soup = "" \/ is_clean (_page_summary soup) = true.
Proof.
  unfold _page_summary.
  repeat match goal with
         | |- context [match ?x with _ => _ end] => destruct x
         end; auto using _cleanup_text_clean_text.
Qed.

Lemma _best_title_is_clean (soup : Soup) : is_clean (_best_title soup) = true.
Proof.
  unfold _best_title.
  repeat match goal with
         | |- context [match ?x with _ => _ end] => destruct x
         end; auto using _cleanup_text_clean_text.
Qed.

Lemma page_record_contact_fields (url html country region : string)
      (p : SupplierRecord) :
  page_record url html country region = Returns p ->
  absent_or_nonempty (email p) /\
  absent_or_nonempty (contact_number p) /\
  absent_or_nonempty (company_details p) /\
  (forall details, company_details p = Some details -> is_clean details = true).
Proof.
  intros P. destruct (page_record_returns _ _ _ _ _ P) as (_ & ->).
  cbn [new_record email contact_number company_details].
  split; [apply joined_matches_nonempty; intros m; apply _extract_emails_nonempty|].
  split; [apply joined_matches_nonempty; intros m; apply _extract_phones_nonempty|].
  split; [apply or_None_nonempty|].
  intros details. unfold or_None.
  destruct (_page_summary_is_clean (BeautifulSoup html)) as [->|H];
    [discriminate|].
  destruct (truthy _); [|discriminate].
  now intros [= <-].
Qed.

Lemma attempt_fixed_fields (api_key ctry reg cc : string) (delay_s : duration)
      (url : string) (idx : Z) (sent : nat) (r : SupplierRecord) :
  fst (attempt api_key ctry reg cc delay_s url idx sent) = Returns r ->
  reserved_fields_absent r /\
  sources r = [url] /\ country r = Some ctry /\ region r = Some reg.
Proof.
  intros H. apply attempt_returns in H.
  destruct H as [(html & p & _ & P & -> & _)|(exc & _ & R & _)].
  - destruct (page_record_returns _ _ _ _ _ P) as (_ & ->).
    unfold reserved_fields_absent; repeat split.
  - destruct (failure_record_returns _ _ _ _ _ _ R) as (_ & ->).
    unfold reserved_fields_absent; repeat split.
Qed.

Lemma attempt_contact_fields (api_key ctry reg cc : string) (delay_s : duration)
      (url : string) (idx : Z) (sent : nat) (r : SupplierRecord) :
  fst (attempt api_key ctry reg cc delay_s url idx sent) = Returns r ->
  absent_or_nonempty (email r) /\
  absent_or_nonempty (contact_number r) /\
  absent_or_nonempty (company_details r) /\
  (forall details, company_details r = Some details -> is_clean details = true).
Proof.
  intros H. apply attempt_returns in H.
  destruct H as [(html & p & _ & P & -> & _)|(exc & _ & R & _)].
  - apply (page_record_contact_fields url html ctry reg p P).
  - destruct (failure_record_returns _ _ _ _ _ _ R) as (_ & ->).
    cbn. repeat split; discriminate.
Qed.

Lemma attempt_notes (api_key ctry reg cc : string) (delay_s : duration)
      (url : string) (idx : Z) (sent : nat) (r : SupplierRecord) :
  fst (attempt api_key ctry reg cc delay_s url idx sent) = Returns r ->
  (notes r = None <->
   exists html, fetch_as_request sent api_key url cc = Returns html) /\
  snd (attempt api_key ctry reg cc delay_s url idx sent) =
  Request (_scraperapi_url api_key url cc) ::
  match notes r with None => [Sleep delay_s] | Some _ => [] end.
Proof.
  intros H. apply attempt_returns in H.
  destruct H as [(html & p & F & P & -> & _ & ->)|(exc & F & R & ->)].
  - destruct (page_record_returns _ _ _ _ _ P) as (_ & ->).
    cbn [set_serial_number new_record notes].
    split; [split; eauto | reflexivity].
  - destruct (failure_record_returns _ _ _ _ _ _ R) as (_ & ->).
    cbn [new_record notes].
    split; [|reflexivity].
    split; [discriminate|]. intros (html & Hh). congruence.
Qed.

End RecordFields.

(** X5.  In every record [build_records] returns, the e-mail, the contact
    number and the company details are each absent or a text that is not
    empty, and company details that are present are cleaned text. *)
Theorem records_contact_fields_absent_or_nonempty {env : Environment}
        (api_key query ctry reg cc : string) (n : Z) (delay_s : duration)
        (tr tr2 : list event) (records : list SupplierRecord) :
  build_records api_key query ctry reg cc n delay_s tr = (Returns records, tr2) ->
  Forall (fun r =>
            absent_or_nonempty (email r) /\
            absent_or_nonempty (contact_number r) /\
            absent_or_nonempty (company_details r) /\
            (forall details,
                company_details r = Some details -> is_clean details = true))
         records.
Proof.
  rewrite build_records_run.
  destruct (google_search api_key query cc n tr) as [[links|e] tr1];
    [|discriminate].
  intros [= Hout _]. apply Forall_forall. intros r Hr.
  destruct (attempts_returns _ _ _ _ _ _ _ _ _ Hout) as (_ & _ & Hin).
  destruct (Hin r Hr) as (u & j & k & _ & Ha).
  apply (attempt_contact_fields _ _ _ _ _ _ _ _ _ Ha).
Qed.

(** X6.  In every record [build_records] returns, the thirty-one fields
    the script never fills are absent, the sources are the website alone,
    and the country and the region are the ones the caller gave. *)
Theorem records_fixed_fields {env : Environment}
        (api_key query ctry reg cc : string) (n : Z) (delay_s : duration)
        (tr tr2 : list event) (records : list SupplierRecord) :
  build_records api_key query ctry reg cc n delay_s tr = (Returns records, tr2) ->
  Forall (fun r =>
            reserved_fields_absent r /\
            (exists url, website r = Some url /\ sources r = [url]) /\
            country r = Some ctry /\ region r = Some reg)
         records.
Proof.
  rewrite build_records_run.
  destruct (google_search api_key query cc n tr) as [[links|e] tr1];
    [|discriminate].
  intros [= Hout _]. apply Forall_forall. intros r Hr.
  destruct (attempts_returns _ _ _ _ _ _ _ _ _ Hout) as (_ & _ & Hin).
  destruct (Hin r Hr) as (u & j & k & _ & Ha).
  destruct (attempt_fixed_fields _ _ _ _ _ _ _ _ _ Ha) as (H1 & H2 & H3 & H4).
  split; [assumption|]. split; [|split; assumption].
  exists u. split; [apply (attempt_website_serial _ _ _ _ _ _ _ _ _ Ha) | assumption].
Qed.

(** X7.  The record of [build_records] for the URL at position [i + 1]
    carries a note exactly when the fetch of that URL raised; when the
    fetch returned a page, the record is the record of that page with
    serial number [i + 1]. *)
Theorem fetched_page_gives_its_record {env : Environment}
        (api_key query ctry reg cc : string) (n : Z) (delay_s : duration)
        (tr tr1 tr2 : list event) (links : list string)
        (records : list SupplierRecord) (i : nat) (u : string) :
  google_search api_key query cc n tr = (Returns links, tr1) ->
  build_records api_key query ctry reg cc n delay_s tr = (Returns records, tr2) ->
  nth_error links i = Some u ->
  exists r,
    nth_error records i = Some r /\
    (notes r = None <->
     exists html,
       fetch_as_request (requests_sent tr + 1 + i) api_key u cc = Returns html) /\
    (forall html,
        fetch_as_request (requests_sent tr + 1 + i) api_key u cc = Returns html ->
        exists p,
          page_record u html ctry reg = Returns p /\
          r = set_serial_number p (Z.of_nat (i + 1))).
Proof.
  intros Hs Hb Hu.
  pose proof (google_search_requests_sent api_key query cc n tr) as Hsent.
  rewrite Hs in Hsent. cbn [snd] in Hsent.
  rewrite build_records_run, Hs in Hb. injection Hb as Hout _.
  destruct (attempts_returns _ _ _ _ _ _ _ _ _ Hout) as (_ & Hnth & _).
  destruct (Hnth i u Hu) as (r & Hr & Ha).
  rewrite Hsent in Ha.
  replace (S (requests_sent tr) + i) with (requests_sent tr + 1 + i) in Ha by lia.
  exists r. split; [exact Hr|].
  split; [apply (attempt_notes _ _ _ _ _ _ _ _ _ Ha)|].
  intros html Hh. apply attempt_returns in Ha.
  destruct Ha as [(html' & p & F & P & -> & _)|(exc & F & _)]; [|congruence].
  rewrite Hh in F. injection F as <-.
  exists p. split; [exact P|].
  now replace (1 + Z.of_nat i)%Z with (Z.of_nat (i + 1)) by lia.
Qed.

Lemma NoDup_map_Some (l : list string) : NoDup l -> NoDup (map Some l).
Proof.
  induction 1 as [|x l Hx Hnd IH]; simpl; constructor; [|assumption].
  rewrite in_map_iff. intros (y & [= ->] & Hy). contradiction.
Qed.

Lemma prefix_refl (a : string) : String.prefix a a = true.
Proof.
  induction a as [|c a IH]; [reflexivity|]. simpl.
  destruct (ascii_dec c c); [assumption | congruence].
Qed.

Lemma prefix_append (a b : string) : String.prefix a (a ++ b)%string = true.
Proof.
  induction a as [|c a IH]; simpl; [now destruct b|].
  destruct (ascii_dec c c); [assumption | congruence].
Qed.

(* ------------------------------------------------------------------ *)
(** * What a run sends and when it pauses *)

Section RunEvents.

Context {env : Environment}.

Lemma attempts_pauses (api_key ctry reg cc : string)
      (delay_s : duration) (links : list string) :
  forall idx sent out,
    fst (attempts api_key ctry reg cc delay_s links idx sent) = Returns out ->
    pauses (snd (attempts api_key ctry reg cc delay_s links idx sent)) =
    repeat (Sleep delay_s) (List.length (without_note out)).
Proof.
  induction links as [|u rest IH]; intros idx sent out H.
  - cbn in H. injection H as <-. reflexivity.
  - cbn [attempts] in H |- *.
    destruct (attempt api_key ctry reg cc delay_s u idx sent)
      as [[r|e] ev] eqn:A; [|discriminate].
    assert (Ha : fst (attempt api_key ctry reg cc delay_s u idx sent) = Returns r)
      by now rewrite A.
    destruct (attempt_notes _ _ _ _ _ _ _ _ _ Ha) as (_ & Hev).
    rewrite A in Hev. cbn [snd] in Hev.
    specialize (IH (idx + 1)%Z (S sent)).
    destruct (attempts api_key ctry reg cc delay_s rest (idx + 1) (S sent))
      as [[out'|e] ev'] eqn:R; [|discriminate].
    cbn [fst snd] in *. injection H as <-.
    unfold pauses, without_note in *. rewrite filter_app, (IH out' eq_refl), Hev.
    cbn [filter]. now destruct (notes r).
Qed.

(** [_get_html] by what the session does: the body of a response whose
    status is neither a client nor a server error, an exception
    otherwise. *)
Lemma fetch_as_request_cases (sent : nat) (api_key url cc : string) :
  let target := _scraperapi_url api_key url cc in
  match network sent target with
  | Fails msg =>
      fetch_as_request sent api_key url cc = Raises (RequestException msg)
  | Responds r =>
      if ((400 <=? status_code r) && (status_code r <? 600))%Z
      then exists msg,
          fetch_as_request sent api_key url cc = Raises (RequestException msg) /\
          String.prefix (str_of_int (status_code r)) msg = true
      else fetch_as_request sent api_key url cc = Returns (text r)
  end.
Proof.
  cbv zeta. unfold fetch_as_request, _get_html, bind, session_get, raise_for_status.
  rewrite requests_sent_repeat.
  destruct (network sent (_scraperapi_url api_key url cc)) as [r|msg];
    [|reflexivity].
  destruct (Z.leb_spec 400 (status_code r)), (Z.ltb_spec (status_code r) 500),
           (Z.ltb_spec (status_code r) 600), (Z.leb_spec 500 (status_code r));
    cbn [andb fst ret raise]; try lia; try reflexivity;
    (eexists; split; [reflexivity|]);
    apply prefix_append.
Qed.

End RunEvents.

(** X8.  [_get_html] sends one request, to the proxy URL of the target,
    whatever comes back.  It returns the body of the response when the
    status is below 400 or above 599; on a status from 400 to 599 it
    raises a request exception whose message starts with the status; when
    the session itself raises, so does it, with the same message. *)
Theorem _get_html_by_status {env : Environment} (api_key url cc : string)
        (tr : list event) :
  let target := _scraperapi_url api_key url cc in
  snd (_get_html api_key url cc tr) = tr ++ [Request target] /\
  match network (requests_sent tr) target with
  | Fails msg =>
      fst (_get_html api_key url cc tr) = Raises (RequestException msg)
  | Responds r =>
      if ((400 <=? status_code r) && (status_code r <? 600))%Z
      then exists msg,
          fst (_get_html api_key url cc tr) = Raises (RequestException msg) /\
          String.prefix (str_of_int (status_code r)) msg = true
      else fst (_get_html api_key url cc tr) = Returns (text r)
  end.
Proof.
  cbv zeta. split; [apply _get_html_trace|].
  rewrite _get_html_as_request.
  apply fetch_as_request_cases.
Qed.

(** X9.  When the fetch of the search listing raises, [build_records]
    raises the same exception after that one request: no page is
    requested and no record is returned. *)
Theorem build_records_propagates_search_failure {env : Environment}
        (api_key query ctry reg cc : string) (n : Z) (delay_s : duration)
        (tr : list event) (exc : exn) :
  fetch_as_request (requests_sent tr) api_key (search_url_of query n) cc
    = Raises exc ->
  build_records api_key query ctry reg cc n delay_s tr =
  (Raises exc,
   tr ++ [Request (_scraperapi_url api_key (search_url_of query n) cc)]).
Proof.
  intros H. rewrite build_records_run, google_search_run, H. reflexivity.
Qed.

(** X10.  A run of [build_records] that returns has sent the search
    request and then one request for each URL found, in the order of the
    URLs, each to the proxy URL of its target: no URL is requested twice
    and none is skipped. *)
Theorem build_records_requests_each_url_once {env : Environment}
        (api_key query ctry reg cc : string) (n : Z) (delay_s : duration)
        (tr tr1 tr2 : list event) (links : list string)
        (records : list SupplierRecord) :
  google_search api_key query cc n tr = (Returns links, tr1) ->
  build_records api_key query ctry reg cc n delay_s tr = (Returns records, tr2) ->
  filter is_request tr2 =
  filter is_request tr ++
  Request (_scraperapi_url api_key (search_url_of query n) cc) ::
  map (fun u => Request (_scraperapi_url api_key u cc)) links.
Proof.
  intros Hs Hb. rewrite build_records_run, Hs in Hb. injection Hb as Hout <-.
  rewrite google_search_run in Hs. injection Hs as _ Htr.
  rewrite filter_app, (attempts_requests _ _ _ _ _ _ _ _ _ Hout).
  rewrite <- Htr, filter_app. cbn [filter is_request].
  now rewrite <- app_assoc.
Qed.

(** X11.  A run of [build_records] that returns has paused once for each
    record without a note, that is once for each page fetched, every
    pause lasting [delay_s]. *)
Theorem build_records_pauses_once_per_fetched_page {env : Environment}
        (api_key query ctry reg cc : string) (n : Z) (delay_s : duration)
        (tr tr2 : list event) (records : list SupplierRecord) :
  build_records api_key query ctry reg cc n delay_s tr = (Returns records, tr2) ->
  pauses tr2 =
  pauses tr ++ repeat (Sleep delay_s) (List.length (without_note records)).
Proof.
  intros Hb. rewrite build_records_run in Hb.
  destruct (google_search api_key query cc n tr) as [[links|e] tr1] eqn:Hs;
    [|discriminate].
  injection Hb as Hout <-.
  rewrite google_search_run in Hs. injection Hs as _ Htr.
  pose proof (attempts_pauses _ _ _ _ _ _ _ _ _ Hout) as Hp.
  unfold pauses in *. rewrite filter_app, Hp, <- Htr, filter_app.
  cbn [filter is_request negb app].
  now rewrite app_nil_r.
Qed.

(** X12.  For a count of one or more, [build_records] returns no more
    records than the count; whatever the count, no two of its records
    have the same website and no website has ["google.com"] in it. *)
Theorem build_records_bounded_and_distinct {env : Environment}
        (api_key query ctry reg cc : string) (n : Z) (delay_s : duration)
        (tr tr2 : list event) (records : list SupplierRecord) :
  build_records api_key query ctry reg cc n delay_s tr = (Returns records, tr2) ->
  ((1 <= n)%Z -> (len records <= n)%Z) /\
  NoDup (map website records) /\
  Forall (fun r => exists u, website r = Some u /\
                             contains "google.com" u = false) records.
Proof.
  intros Hb. rewrite build_records_run in Hb.
  destruct (google_search api_key query cc n tr) as [[links|e] tr1] eqn:Hs;
    [|discriminate].
  injection Hb as Hout _.
  destruct (google_search_links _ _ _ _ _ _ _ Hs)
    as (html & _ & Hnd & _ & Hel & Hcap & _).
  destruct (attempts_returns _ _ _ _ _ _ _ _ _ Hout) as (Hlen & _ & Hin).
  split; [|split].
  - intros Hn. unfold len in *. rewrite Hlen. auto.
  - rewrite (attempts_website _ _ _ _ _ _ _ _ _ Hout).
    now apply NoDup_map_Some.
  - rewrite Forall_forall in Hel. apply Forall_forall. intros r Hr.
    destruct (Hin r Hr) as (u & j & k & Hu & Ha).
    exists u.
    split; [apply (attempt_website_serial _ _ _ _ _ _ _ _ _ Ha) | apply (Hel u Hu)].
Qed.

(* ------------------------------------------------------------------ *)
(** * Cutting a link out of an [href] *)

Section Split.

Local Open Scope string_scope.

Lemma split_from_skip (sep : string) (a : string) :
  forall s cur,
    split_from sep (a ++ s) (String.length a) cur = split_from sep s 0 cur.
Proof.
  induction a as [|c a IH]; intros s cur; [reflexivity|].
  cbn [String.append String.length split_from]. apply IH.
Qed.

Lemma split_from_nonnil (sep s : string) :
  forall skip cur, split_from sep s skip cur <> [].
Proof.
  induction s as [|c s IH]; intros skip cur; cbn [split_from]; [discriminate|].
  destruct skip; [|apply IH].
  destruct (String.prefix sep (String c s)); [discriminate | apply IH].
Qed.

(** A text without the separator is one piece. *)
Lemma split_from_none (sep s : string) :
  forall cur,
    contains sep s = false -> split_from sep s 0 cur = [cur ++ s].
Proof.
  induction s as [|c s IH]; intros cur H.
  - simpl. now rewrite append_nil_r.
  - cbn [contains] in H. apply orb_false_iff in H as [Hp Hc].
    cbn [split_from]. rewrite Hp, (IH _ Hc), append_assoc. reflexivity.
Qed.

(** A separator at the start of the text ends the piece being read. *)
Lemma split_from_sep (sep s cur : string) :
  sep <> "" ->
  split_from sep (sep ++ s) 0 cur = cur :: split_from sep s 0 "".
Proof.
  destruct sep as [|a sep']; [congruence|]. intros _.
  change (String a sep' ++ s) with (String a (sep' ++ s)).
  cbn [split_from].
  change (String a (sep' ++ s)) with (String a sep' ++ s) at 1.
  rewrite prefix_append.
  cbn [String.length]. rewrite Nat.sub_succ, Nat.sub_0_r.
  now rewrite split_from_skip.
Qed.

(** Two occurrences of ["/url?q="] cannot overlap. *)
Lemma url_q_no_overlap (x rest : string) :
  String.prefix "/url?q=" (x ++ "/url?q=" ++ rest) = true ->
  x = "" \/ 7 <= String.length x.
Proof.
  intros H.
  destruct x as [|c1 x]; [now left|]. right.
  do 6 (destruct x as [|? x];
        [exfalso; cbn in H;
         repeat match type of H with
                | (if ?d then _ else _) = true =>
                    destruct d; [subst|discriminate]
                end;
         discriminate|]).
  simpl. lia.
Qed.

(** The last piece is what follows the last separator. *)
Lemma last_split_url_q (rest : string) (x : string) :
  contains "/url?q=" rest = false ->
  forall skip cur,
    skip <= String.length x ->
    last_item (split_from "/url?q=" (x ++ "/url?q=" ++ rest) skip cur) = rest.
Proof.
  intros Hrest. induction x as [|c x IH]; intros skip cur Hskip.
  - simpl in Hskip. replace skip with 0 by lia.
    change ("" ++ "/url?q=" ++ rest) with ("/url?q=" ++ rest).
    rewrite split_from_sep by discriminate.
    now rewrite (split_from_none _ _ "" Hrest).
  - change (String c x ++ "/url?q=" ++ rest)
      with (String c (x ++ "/url?q=" ++ rest)).
    cbn [split_from].
    destruct skip as [|k]; [|apply IH; simpl in Hskip; lia].
    destruct (String.prefix "/url?q=" (String c (x ++ "/url?q=" ++ rest))) eqn:P;
      [|apply IH; lia].
    apply (url_q_no_overlap (String c x) rest) in P as [P|P]; [discriminate|].
    unfold last_item. cbn [List.last String.length Nat.sub].
    pose proof (split_from_nonnil "/url?q=" (x ++ "/url?q=" ++ rest) 6 "") as Hn.
    destruct (split_from "/url?q=" (x ++ "/url?q=" ++ rest) 6 "") as [|p l] eqn:E;
      [congruence|].
    rewrite <- E. apply IH. simpl in P. lia.
Qed.

Lemma no_ampersand_snoc (cur : string) (c : ascii) :
  no_ampersand cur = true -> Ascii.eqb c "&" = false ->
  no_ampersand (cur ++ String c "") = true.
Proof.
  unfold no_ampersand. intros H Hc.
  induction cur as [|d cur IH]; simpl in *; [now rewrite Hc|].
  apply andb_true_iff in H as [-> H]. now apply IH.
Qed.

Lemma prefix_ampersand (c : ascii) (s : string) :
  String.prefix "&" (String c s) = Ascii.eqb c "&".
Proof.
  cbn [String.prefix]. destruct (ascii_dec "&" c) as [<-|N].
  - destruct s; reflexivity.
  - symmetry. apply Ascii.eqb_neq. congruence.
Qed.

(** The first piece of a split at ["&"] holds no ["&"]. *)
Lemma first_split_no_ampersand (s : string) :
  forall cur,
    no_ampersand cur = true ->
    no_ampersand (first_item (split_from "&" s 0 cur)) = true.
Proof.
  induction s as [|c s IH]; intros cur H; [exact H|].
  cbn [split_from]. rewrite prefix_ampersand.
  destruct (Ascii.eqb c "&") eqn:E; [exact H|].
  apply IH. now apply no_ampersand_snoc.
Qed.

(** The first piece ends where the first ["&"] stands. *)
Lemma first_split_ampersand (link tail : string) :
  no_ampersand link = true ->
  tail = "" \/ (exists t, tail = "&" ++ t) ->
  forall cur, first_item (split_from "&" (link ++ tail) 0 cur) = cur ++ link.
Proof.
  intros Hl Ht. induction link as [|c link IH]; intros cur.
  - rewrite append_nil_r. destruct Ht as [->|(t & ->)]; [reflexivity|].
    change ("" ++ "&" ++ t) with (String "&" t).
    cbn [split_from]. now rewrite prefix_ampersand.
  - unfold no_ampersand in Hl. cbn [string_forall] in Hl.
    apply andb_true_iff in Hl as [Hc Hl]. apply negb_true_iff in Hc.
    change (String c link ++ tail) with (String c (link ++ tail)).
    cbn [split_from]. rewrite prefix_ampersand, Hc.
    rewrite (IH Hl), append_assoc. reflexivity.
Qed.

Lemma outbound_link_no_ampersand (result : Tag) (link : string) :
  outbound_link result = Some link -> no_ampersand link = true.
Proof.
  unfold outbound_link.
  destruct (startswith _ _); [|discriminate].
  destruct (truthy _ && negb _); [|discriminate].
  intros [= <-]. now apply first_split_no_ampersand.
Qed.

Lemma outbound_links_no_ampersand (results : list Tag) :
  Forall (fun link => no_ampersand link = true) (outbound_links results).
Proof.
  induction results as [|result rest IH]; simpl; [constructor|].
  destruct (outbound_link result) as [link|] eqn:E; [|assumption].
  constructor; [now apply outbound_link_no_ampersand with result | assumption].
Qed.

End Split.

(** X13.  An anchor whose [href] starts with ["/url?q="] carries, as its
    link, the text after the last ["/url?q="] of the [href] up to the next
    ["&"], provided that text is not empty and holds no ["google.com"]. *)
Theorem outbound_link_of_redirect (result : Tag) (x link tail : string) :
  tag_get result "href" = Some (x ++ "/url?q=" ++ link ++ tail)%string ->
  startswith (x ++ "/url?q=" ++ link ++ tail)%string "/url?q=" = true ->
  contains "/url?q=" (link ++ tail)%string = false ->
  no_ampersand link = true ->
  tail = "" \/ (exists t, tail = ("&" ++ t)%string) ->
  link <> "" ->
  contains "google.com" link = false ->
  outbound_link result = Some link.
Proof.
  intros Hhref Hstart Hsep Hamp Htail Hne Hg.
  assert (E : first_item
                (split (last_item (split (x ++ "/url?q=" ++ link ++ tail)%string
                                         "/url?q="))
                       "&") = link).
  { unfold split.
    rewrite (last_split_url_q (link ++ tail) x Hsep 0 "" (Nat.le_0_l _)).
    now rewrite (first_split_ampersand link tail Hamp Htail ""). }
  unfold outbound_link, tag_get_default. rewrite Hhref, Hstart. cbv zeta.
  rewrite E, Hg.
  apply truthy_true in Hne. now rewrite Hne.
Qed.

(** X14.  No link [google_search] returns holds an ["&"]: a target with
    several query parameters is cut after the first. *)
Theorem google_search_links_have_no_ampersand {env : Environment}
        (api_key query cc : string) (n : Z) (tr tr' : list event)
        (links : list string) :
  google_search api_key query cc n tr = (Returns links, tr') ->
  Forall (fun link => no_ampersand link = true) links.
Proof.
  rewrite google_search_run.
  destruct (fetch_as_request _ _ _ _) as [html|e]; [|discriminate].
  intros [= <- _].
  destruct (google_search_loop_prefix (soup_select_a (BeautifulSoup html)) n)
    as (k & -> & _).
  destruct (dict_fromkeys_keys
              (firstn k (outbound_links (soup_select_a (BeautifulSoup html)))))
    as (_ & Hiff & _).
  apply Forall_forall. intros u Hu.
  pose proof (outbound_links_no_ampersand (soup_select_a (BeautifulSoup html))) as H.
  rewrite Forall_forall in H. apply H.
  apply In_firstn with k. now apply Hiff.
Qed.

(* ------------------------------------------------------------------ *)
(** * The request URL *)

Section RequestUrl.

Local Open Scope string_scope.

Lemma quote_plus_inverse_char (c : ascii) (r : string) :
  quote_plus_inverse
    ((if (ord c =? 32)%N then "+"
      else if Urllib.always_safe c then String c ""
           else String.concat "" (map Urllib.percent (Urllib.utf8 c))) ++ r)
  = String c (quote_plus_inverse r).
Proof.
  destruct c as [[] [] [] [] [] [] [] []]; reflexivity.
Qed.

Lemma quote_plus_inverse_quote_plus (s : string) :
  quote_plus_inverse (Urllib.quote_plus s) = s.
Proof.
  induction s as [|c s IH]; [reflexivity|].
  cbn [Urllib.quote_plus]. now rewrite quote_plus_inverse_char, IH.
Qed.

Lemma quote_plus_injective (s1 s2 : string) :
  Urllib.quote_plus s1 = Urllib.quote_plus s2 -> s1 = s2.
Proof.
  intros H. rewrite <- (quote_plus_inverse_quote_plus s1), H.
  apply quote_plus_inverse_quote_plus.
Qed.

Lemma string_forall_append (p : ascii -> bool) (a b : string) :
  string_forall p (a ++ b) = string_forall p a && string_forall p b.
Proof.
  induction a as [|c a IH]; simpl; [reflexivity|].
  now rewrite IH, andb_assoc.
Qed.

Lemma quote_plus_char_quoted (c : ascii) :
  string_forall quoted_char
    (if (ord c =? 32)%N then "+"
     else if Urllib.always_safe c then String c ""
          else String.concat "" (map Urllib.percent (Urllib.utf8 c))) = true.
Proof.
  destruct c as [[] [] [] [] [] [] [] []]; vm_compute; reflexivity.
Qed.

Lemma quote_plus_quoted (s : string) :
  string_forall quoted_char (Urllib.quote_plus s) = true.
Proof.
  induction s as [|c s IH]; [reflexivity|].
  cbn [Urllib.quote_plus].
  now rewrite string_forall_append, quote_plus_char_quoted, IH.
Qed.

Lemma append_inv_head (a b c : string) : a ++ b = a ++ c -> b = c.
Proof.
  induction a as [|x a IH]; simpl; [auto|]. intros [= H]. auto.
Qed.

Lemma append_inv_tail (a b c : string) : a ++ c = b ++ c -> a = b.
Proof.
  revert b. induction a as [|x a IH]; intros [|y b] H; simpl in H.
  - reflexivity.
  - exfalso. apply (f_equal String.length) in H.
    simpl in H. rewrite length_append in H. lia.
  - exfalso. apply (f_equal String.length) in H.
    simpl in H. rewrite length_append in H. lia.
  - injection H as -> H. f_equal. now apply IH.
Qed.

End RequestUrl.

(** X15.  With the same key and region code, different targets give
    different request URLs: [quote_plus] loses nothing of the target. *)
Theorem _scraperapi_url_injective (api_key cc target1 target2 : string) :
  _scraperapi_url api_key target1 cc = _scraperapi_url api_key target2 cc ->
  target1 = target2.
Proof.
  unfold _scraperapi_url. intros H.
  do 4 apply append_inv_head in H.
  apply append_inv_tail in H.
  now apply quote_plus_injective.
Qed.

(** X16.  In the request URL the target is written with letters, digits
    and the characters ["_.-~+%"] only, between ["&url="] and
    ["&country_code="]: nothing of the target can read as a separator or
    as another parameter. *)
Theorem _scraperapi_url_quotes_the_target (api_key target cc : string) :
  exists quoted,
    _scraperapi_url api_key target cc =
    ("https://api.scraperapi.com/?api_key=" ++ api_key ++ "&url=" ++ quoted ++
     "&country_code=" ++ cc)%string /\
    string_forall quoted_char quoted = true.
Proof.
  exists (Urllib.quote_plus target). split.
  - reflexivity.
  - apply quote_plus_quoted.
Qed.

(* ------------------------------------------------------------------ *)
(** * Enriching twice, and blank titles *)

Section EnrichAgain.

Lemma enrich_email_present (r : SupplierRecord) (t : string) :
  truthy_opt (email r) = true \/ _extract_emails t <> [] ->
  truthy_opt (email (enrich_record_from_directory r t)) = true.
Proof.
  rewrite enrich_email. intros H.
  destruct (truthy_opt (email r)) eqn:T.
  - now rewrite andb_false_r.
  - destruct H as [H|H]; [discriminate|].
    rewrite (nonempty_true _ H). cbn [andb negb].
    apply truthy_joined; [|assumption].
    intros m. apply _extract_emails_nonempty.
Qed.

Lemma enrich_contact_number_present (r : SupplierRecord) (t : string) :
  truthy_opt (contact_number r) = true \/ _extract_phones t <> [] ->
  truthy_opt (contact_number (enrich_record_from_directory r t)) = true.
Proof.
  rewrite enrich_contact_number. intros H.
  destruct (truthy_opt (contact_number r)) eqn:T.
  - now rewrite andb_false_r.
  - destruct H as [H|H]; [discriminate|].
    rewrite (nonempty_true _ H). cbn [andb negb].
    apply truthy_joined; [|assumption].
    intros m. apply _extract_phones_nonempty.
Qed.

Lemma blank_sub_runs (s : string) :
  string_forall isspace s = true -> sub_runs space " " s true = "".
Proof.
  induction s as [|c s IH]; [reflexivity|].
  cbn [string_forall sub_runs]. unfold space at 1.
  intros H. apply andb_true_iff in H as [-> H]. now apply IH.
Qed.

Lemma _cleanup_text_blank (s : string) :
  string_forall isspace s = true -> _cleanup_text s = "".
Proof.
  unfold _cleanup_text. destruct s as [|c s]; [reflexivity|].
  cbn [string_forall sub_runs]. unfold space at 1.
  intros H. apply andb_true_iff in H as [-> H].
  now rewrite (blank_sub_runs _ H).
Qed.

End EnrichAgain.

(** X17.  Once a record has an e-mail and a contact number, from before
    or from a first directory text, enriching it with any further text
    changes nothing: the first text that fills a field wins. *)
Theorem enrich_first_text_wins (record : SupplierRecord) (text1 text2 : string) :
  truthy_opt (email record) = true \/ _extract_emails text1 <> [] ->
  truthy_opt (contact_number record) = true \/ _extract_phones text1 <> [] ->
  enrich_record_from_directory (enrich_record_from_directory record text1) text2
  = enrich_record_from_directory record text1.
Proof.
  intros He Hc.
  apply (enrich_email_present record text1) in He.
  apply (enrich_contact_number_present record text1) in Hc.
  rewrite (enrich_shape (enrich_record_from_directory record text1) text2).
  rewrite enrich_email, enrich_contact_number, He, Hc, !andb_false_r.
  now rewrite set_email_same, set_contact_number_same.
Qed.

(** X18.  A title element whose text is whitespace only, though not
    empty, keeps [_best_title] from looking at the level-1 heading: the
    title is empty, whatever the heading, and the name of the page's
    record is the network location of the URL; when [urlparse] raises on
    the URL, no record is built and [page_record] raises the same. *)
Theorem blank_title_hides_the_heading {env : Environment}
        (url html ctry reg : string) (title : Tag) (s : string) :
  soup_title (BeautifulSoup html) = Some title ->
  tag_string title = Some s ->
  s <> "" -> string_forall isspace s = true ->
  _best_title (BeautifulSoup html) = "" /\
  match urlparse_netloc url with
  | Returns n =>
      exists p, page_record url html ctry reg = Returns p /\ name p = n
  | Raises e => page_record url html ctry reg = Raises e
  end.
Proof.
  intros Ht Hs Hne Hblank.
  apply truthy_true in Hne.
  assert (E1 : _best_title (BeautifulSoup html) = "").
  { unfold _best_title. rewrite Ht, Hs, Hne. now apply _cleanup_text_blank. }
  split; [exact E1|].
  unfold page_record. rewrite E1. cbn [truthy].
  destruct (urlparse_netloc url) as [n|e]; [|reflexivity].
  eexists. split; reflexivity.
Qed.

(** X19.  A description of whitespace only, though not empty, keeps
    [_page_summary] from looking at the paragraphs: the summary is empty,
    whatever the paragraphs, and the record of the page, which is built
    when the page has a title or [urlparse] accepts the URL, has no
    company details. *)
Theorem blank_description_hides_the_paragraphs {env : Environment}
        (url html ctry reg : string) (meta : Tag) (d : string) :
  soup_find_meta_description (BeautifulSoup html) = Some meta ->
  tag_get meta "content" = Some d ->
  d <> "" -> string_forall isspace d = true ->
  _page_summary (BeautifulSoup html) = "" /\
  (forall p, page_record url html ctry reg = Returns p ->
             company_details p = None) /\
  (_best_title (BeautifulSoup html) <> "" \/ urlparse_accepts url ->
   exists p, page_record url html ctry reg = Returns p /\
             company_details p = None).
Proof.
  intros Hm Hd Hdne Hdblank.
  apply truthy_true in Hdne.
  assert (E2 : _page_summary (BeautifulSoup html) = "").
  { unfold _page_summary. rewrite Hm, Hd, Hdne. now apply _cleanup_text_blank. }
  assert (Hc : forall p, page_record url html ctry reg = Returns p ->
                         company_details p = None).
  { intros p Hp. destruct (page_record_returns _ _ _ _ _ Hp) as (_ & ->).
    cbn [new_record company_details]. now rewrite E2. }
  split; [exact E2|]. split; [exact Hc|].
  intros Hok. destruct (page_record_total ctry reg url html Hok) as (p & Hp).
  exists p. split; [exact Hp | now apply Hc].
Qed.

(* ------------------------------------------------------------------ *)
(** * The further properties on the scenario *)

(** X4 on a text with one phone number. *)
Lemma _extract_phones_shape_example :
  occurs_in "+86 (010) 1234-5678" "Call +86 (010) 1234-5678 today" /\
  lang PHONE_RE "+86 (010) 1234-5678" /\
  strip "+86 (010) 1234-5678" = "+86 (010) 1234-5678" /\
  7 <= digit_count "+86 (010) 1234-5678" <= 15 /\
  String.length "+86 (010) 1234-5678" <= 21.
Proof.
  apply (_extract_phones_shape "Call +86 (010) 1234-5678 today").
  vm_compute. left. reflexivity.
Defined.

(** X5 on the scenario. *)
Lemma records_contact_fields_absent_or_nonempty_scenario :
  exists records tr2,
    build_records (env := canned acme_listing)
                  "KEY" "acme suppliers" "China" "Asia" "cn" 2 (Millis 1500) []
      = (Returns records, tr2) /\
    Forall (fun r =>
              absent_or_nonempty (email r) /\
              absent_or_nonempty (contact_number r) /\
              absent_or_nonempty (company_details r) /\
              (forall details,
                  company_details r = Some details -> is_clean details = true))
           records.
Proof.
  eexists. eexists. split; [vm_compute; reflexivity|].
  eapply (records_contact_fields_absent_or_nonempty
            (env := canned acme_listing)
            "KEY" "acme suppliers" "China" "Asia" "cn" 2 (Millis 1500) []).
  vm_compute. reflexivity.
Defined.

(** X6 on the scenario. *)
Lemma records_fixed_fields_scenario :
  exists records tr2,
    build_records (env := canned acme_listing)
                  "KEY" "acme suppliers" "China" "Asia" "cn" 2 (Millis 1500) []
      = (Returns records, tr2) /\
    Forall (fun r =>
              reserved_fields_absent r /\
              (exists url, website r = Some url /\ sources r = [url]) /\
              country r = Some "China" /\ region r = Some "Asia")
           records.
Proof.
  eexists. eexists. split; [vm_compute; reflexivity|].
  eapply (records_fixed_fields
            (env := canned acme_listing)
            "KEY" "acme suppliers" "China" "Asia" "cn" 2 (Millis 1500) []).
  vm_compute. reflexivity.
Defined.

(** X7 on the scenario: the page of [a.example] is fetched. *)
Lemma fetched_page_gives_its_record_scenario :
  exists records tr2 r p,
    build_records (env := canned acme_listing)
                  "KEY" "acme suppliers" "China" "Asia" "cn" 2 (Millis 1500) []
      = (Returns records, tr2) /\
    nth_error records 0 = Some r /\
    notes r = None /\
    page_record (env := canned acme_listing)
                "http://a.example/" "<acme>" "China" "Asia" = Returns p /\
    r = set_serial_number p 1.
Proof.
  eexists. eexists.
  destruct (fetched_page_gives_its_record
              (env := canned acme_listing)
              "KEY" "acme suppliers" "China" "Asia" "cn" 2 (Millis 1500)
              [] _ _ ["http://a.example/"; "http://b.example/"] _
              0 "http://a.example/"
              ltac:(vm_compute; reflexivity) ltac:(vm_compute; reflexivity)
              eq_refl)
    as (r & Hr & Hn & Hp).
  destruct (Hp "<acme>" ltac:(vm_compute; reflexivity)) as (p & Hpp & Hrp).
  exists r, p. split; [reflexivity|]. split; [exact Hr|].
  split; [|split; [exact Hpp | exact Hrp]].
  apply Hn. exists "<acme>". vm_compute. reflexivity.
Defined.

(** X9 on a network that is down. *)
Lemma build_records_propagates_search_failure_scenario :
  build_records (env := canned_down acme_listing)
                "KEY" "acme suppliers" "China" "Asia" "cn" 2 (Millis 1500) []
  = (Raises (RequestException "Connection refused"),
     [Request (_scraperapi_url "KEY" (search_url_of "acme suppliers" 2) "cn")]).
Proof.
  apply (build_records_propagates_search_failure
           (env := canned_down acme_listing)
           "KEY" "acme suppliers" "China" "Asia" "cn" 2 (Millis 1500) []).
  vm_compute. reflexivity.
Defined.

(** X10 on the scenario: three requests. *)
Lemma build_records_requests_each_url_once_scenario :
  exists tr2,
    snd (build_records (env := canned acme_listing)
                       "KEY" "acme suppliers" "China" "Asia" "cn" 2 (Millis 1500) [])
      = tr2 /\
    filter is_request tr2 =
    [Request (_scraperapi_url "KEY" (search_url_of "acme suppliers" 2) "cn");
     Request (_scraperapi_url "KEY" "http://a.example/" "cn");
     Request (_scraperapi_url "KEY" "http://b.example/" "cn")].
Proof.
  eexists. split; [reflexivity|].
  eapply (build_records_requests_each_url_once
            (env := canned acme_listing)
            "KEY" "acme suppliers" "China" "Asia" "cn" 2 (Millis 1500)
            [] _ _ ["http://a.example/"; "http://b.example/"]);
    vm_compute; reflexivity.
Defined.

(** X11 on the scenario: one page fetched, one pause. *)
Lemma build_records_pauses_once_per_fetched_page_scenario :
  exists records tr2,
    build_records (env := canned acme_listing)
                  "KEY" "acme suppliers" "China" "Asia" "cn" 2 (Millis 1500) []
      = (Returns records, tr2) /\
    List.length (without_note records) = 1 /\
    pauses tr2 = [Sleep (Millis 1500)].
Proof.
  eexists. eexists. split; [vm_compute; reflexivity|].
  split; [vm_compute; reflexivity|].
  erewrite (build_records_pauses_once_per_fetched_page
              (env := canned acme_listing)
              "KEY" "acme suppliers" "China" "Asia" "cn" 2 (Millis 1500) []).
  2: { vm_compute. reflexivity. }
  vm_compute. reflexivity.
Defined.

(** X12 on the scenario. *)
Lemma build_records_bounded_and_distinct_scenario :
  exists records tr2,
    build_records (env := canned acme_listing)
                  "KEY" "acme suppliers" "China" "Asia" "cn" 2 (Millis 1500) []
      = (Returns records, tr2) /\
    (len records <= 2)%Z /\
    NoDup (map website records).
Proof.
  eexists. eexists. split; [vm_compute; reflexivity|].
  destruct (build_records_bounded_and_distinct
              (env := canned acme_listing)
              "KEY" "acme suppliers" "China" "Asia" "cn" 2 (Millis 1500) [] _ _
              ltac:(vm_compute; reflexivity))
    as (Hcap & Hnd & _).
  split; [apply Hcap; lia | exact Hnd].
Defined.

(** X13 on an [href] with two redirections: the last one counts. *)
Lemma outbound_link_of_redirect_example :
  outbound_link
    (anchor "/url?q=http://first.example/?next=/url?q=http://a.example/&sa=U")
  = Some "http://a.example/".
Proof.
  apply (outbound_link_of_redirect
           (anchor "/url?q=http://first.example/?next=/url?q=http://a.example/&sa=U")
           "/url?q=http://first.example/?next=" "http://a.example/" "&sa=U");
    try (vm_compute; reflexivity).
  - right. exists "sa=U". reflexivity.
  - discriminate.
Defined.

(** X14 on a listing whose link has two query parameters. *)
Lemma google_search_links_have_no_ampersand_example :
  exists links tr',
    google_search (env := canned ["/url?q=http://a.example/?x=1&y=2&sa=U"])
                  "KEY" "acme suppliers" "cn" 2 []
      = (Returns links, tr') /\
    links = ["http://a.example/?x=1"] /\
    Forall (fun link => no_ampersand link = true) links.
Proof.
  eexists. eexists. split; [vm_compute; reflexivity|].
  split; [reflexivity|].
  eapply (google_search_links_have_no_ampersand
            (env := canned ["/url?q=http://a.example/?x=1&y=2&sa=U"])
            "KEY" "acme suppliers" "cn" 2 []).
  vm_compute. reflexivity.
Defined.

(** X15 on one target. *)
Lemma _scraperapi_url_injective_example :
  "http://a.example/?x=1&y=2" = "http://a.example/?x=1&y=2".
Proof.
  apply (_scraperapi_url_injective "KEY" "cn"
           "http://a.example/?x=1&y=2" "http://a.example/?x=1&y=2").
  reflexivity.
Defined.

(** X17 on the placeholder of the scenario. *)
Lemma enrich_first_text_wins_example :
  enrich_record_from_directory
    (enrich_record_from_directory b_placeholder
                                  "B Ltd, sales@b.example, tel 555-1234")
    "other@c.example 777-9999"
  = enrich_record_from_directory b_placeholder
                                 "B Ltd, sales@b.example, tel 555-1234".
Proof.
  apply (enrich_first_text_wins b_placeholder
                                "B Ltd, sales@b.example, tel 555-1234"
                                "other@c.example 777-9999");
    right; vm_compute; discriminate.
Defined.

(** X18 on a page whose title is two spaces, above the heading
    [Acme Co]. *)
Lemma blank_title_hides_the_heading_example :
  _best_title (titled_soup "  ") = "" /\
  exists p,
    page_record (env := canned_page (titled_soup "  "))
                "http://d.example/" "" "China" "Asia" = Returns p /\
    name p = "d.example".
Proof.
  apply (blank_title_hides_the_heading
           (env := canned_page (titled_soup "  "))
           "http://d.example/" "" "China" "Asia"
           {| attrs := []; tag_string := Some "  "; tag_text := "  " |}
           "  ");
    try reflexivity; discriminate.
Defined.

(** X19 on a page whose description is one space, above the paragraph
    [We sell.]. *)
Lemma blank_description_hides_the_paragraphs_example :
  _page_summary (described_soup " ") = "" /\
  (forall p,
      page_record (env := canned_page (described_soup " "))
                  "http://d.example/" "" "China" "Asia" = Returns p ->
      company_details p = None) /\
  (_best_title (described_soup " ") <> "" \/
   urlparse_accepts (env := canned_page (described_soup " ")) "http://d.example/" ->
   exists p,
     page_record (env := canned_page (described_soup " "))
                 "http://d.example/" "" "China" "Asia" = Returns p /\
     company_details p = None).
Proof.
  apply (blank_description_hides_the_paragraphs
           (env := canned_page (described_soup " "))
           "http://d.example/" "" "China" "Asia"
           {| attrs := [("name", "description"); ("content", " ")];
              tag_string := None; tag_text := "" |}
           " ");
    try reflexivity; discriminate.
Defined.
